(** * regenerate_templates.py: embedding the contract templates into the CLI

    A shallow embedding of [regenerate_templates.py].  The script reads three
    template files and [cli/src/commands/init.rs], rewrites the three
    [const <NAME>_TEMPLATE_LIB: &str = r#"..."#;] declarations with [re.sub],
    writes the file back and prints a report.

    Python strings are lists of code points, files are lists of bytes, the
    file system is a finite map from paths to contents, and the script is a
    program in a state-and-exception monad over a world that also records
    the order of the file and console operations.  It runs in an
    environment that gives the encoding of the locale, which [open] takes
    for the files, and the encoding of standard output;
    [regenerate_templates] is the script in a UTF-8 locale.

    What the script takes from Python is modelled after CPython on a POSIX
    system: [re.sub] treats its replacement string as a template (module
    [re._parser], Python 3.12 and later), [len] of a [str] counts code
    points.

    The file has five parts: the model of the script, the notions used in
    the statements, the lemmas, the claims C1 to C10 of the specification,
    and further properties of the script, X1 to X18. *)

From Stdlib Require Import NArith String Ascii List Lia DecimalString.
From Stdlib.Strings Require Import Byte.
From stdpp Require Import base option list gmap strings.

Local Open Scope N_scope.
Local Open Scope list_scope.

(** * The model of the script *)

(** ** Python strings *)

(** A Python [str] is a sequence of Unicode code points. *)
Definition pystr : Type := list N.

(** An ASCII literal of the source, as a [str]. *)
Fixpoint lit (s : string) : pystr :=
  match s with
  | EmptyString => []
  | String a s' => N_of_ascii a :: lit s'
  end.

Definition dquote : N := 34.
Definition backslash : N := 92.

(** [str(n)] for a non-negative integer, as used by an f-string field. *)
Definition py_str_of_nat (n : nat) : pystr :=
  lit (NilZero.string_of_uint (Nat.to_uint n)).

(** ** Exceptions *)

Inductive exn : Type :=
| FileNotFoundError (path : string)
| PermissionError (path : string)
| UnicodeDecodeError (path : string)
| UnicodeEncodeError (path : string)  (* for a file, or for [stdout_name] *)
| ReError                             (* [re.error] *)
| IndexError                          (* unknown group name *)
| ValueError                          (* [int] of more digits than the limit *)
| ReErrorOrIndexError.                (* a group name with a character outside
                                         ASCII: [re.error] or [IndexError], as
                                         [str.isidentifier] decides with the
                                         Unicode database of the interpreter *)

Inductive result (A : Type) : Type :=
| Ok (a : A)
| Raise (e : exn).
Arguments Ok {A} a.
Arguments Raise {A} e.

Definition result_bind {A B} (r : result A) (k : A → result B) : result B :=
  match r with
  | Ok a => k a
  | Raise e => Raise e
  end.

(** ** The regular expressions of the script

    All three patterns have the shape [opener.*?closer] compiled with
    [re.DOTALL]; neither literal contains a regex metacharacter, so the
    pattern is given by its two literals. *)

Record pattern : Type := Pattern { opener : pystr; closer : pystr }.

Fixpoint starts_with (p s : pystr) : bool :=
  match p, s with
  | [], _ => true
  | a :: p', b :: s' => (a =? b) && starts_with p' s'
  | _ :: _, [] => false
  end.

(** The lazy [.*?] followed by the literal [c]: the least number of
    characters (any character, line breaks included) to skip before [c]. *)
Fixpoint lazy_until (c s : pystr) : option nat :=
  if starts_with c s then Some 0%nat
  else match s with
       | [] => None
       | _ :: s' => S <$> lazy_until c s'
       end.

(** [pattern.match] at the start of [s]: the length of the match. *)
Definition match_at (p : pattern) (s : pystr) : option nat :=
  if starts_with (opener p) s
  then (λ k, (length (opener p) + k + length (closer p))%nat)
         <$> lazy_until (closer p) (drop (length (opener p)) s)
  else None.

(** ** Replacement templates ([re._parser.parse_template])

    The replacement string of [re.sub] is not taken literally: backslash
    escapes are processed.  The patterns of the script have no capturing
    group, so the only group reference that does not raise is group 0, the
    whole match.  Group names follow Python 3.12 and later: a name of ASCII
    decimal digits is a group number, read by [int]; any other name must be
    an identifier, and then names a group the pattern does not have. *)

Inductive titem : Type :=
| TLit (c : N)
| TGroup0.

Definition is_digit (c : N) : bool := (48 <=? c) && (c <=? 57).
Definition is_octdigit (c : N) : bool := (48 <=? c) && (c <=? 55).
Definition is_ascii_letter (c : N) : bool :=
  ((65 <=? c) && (c <=? 90)) || ((97 <=? c) && (c <=? 122)).
Definition digit_val (c : N) : N := c - 48.
Definition is_ascii (c : N) : bool := c <? 128.
Definition is_ident_char (c : N) : bool :=
  is_ascii_letter c || is_digit c || (c =? 95).

(** The default of [sys.get_int_max_str_digits()]. *)
Definition int_max_str_digits : nat := 4300.

(** What the name between [\g<] and [>] refers to: group 0, or an
    exception.  An ASCII character that no identifier holds, or a digit in
    front, makes the name a bad one whatever its other characters are. *)
Definition group_ref (name : pystr) : result () :=
  match name with
  | [] => Raise ReError                       (* missing group name *)
  | c :: _ =>
      if forallb is_digit name then
        if (int_max_str_digits <? length name)%nat then Raise ValueError
        else if forallb (N.eqb 48) name then Ok ()
        else Raise ReError                    (* invalid group reference *)
      else if is_digit c
                || negb (forallb (λ d, negb (is_ascii d) || is_ident_char d) name)
      then Raise ReError                      (* bad character in group name *)
      else if forallb is_ascii name
      then Raise IndexError                   (* unknown group name *)
      else Raise ReErrorOrIndexError
  end.

(** The table [ESCAPES] of [re._parser]. *)
Definition escape_of (c : N) : option N :=
  if c =? 97 then Some 7          (* \a *)
  else if c =? 98 then Some 8     (* \b *)
  else if c =? 102 then Some 12   (* \f *)
  else if c =? 110 then Some 10   (* \n *)
  else if c =? 114 then Some 13   (* \r *)
  else if c =? 116 then Some 9    (* \t *)
  else if c =? 118 then Some 11   (* \v *)
  else if c =? 92 then Some 92    (* \\ *)
  else None.

Definition tcons (i : titem) (r : result (list titem)) : result (list titem) :=
  result_bind r (λ l, Ok (i :: l)).

(** [parse_template name s]: [name = Some acc] while the characters of a
    group name [\g<...>] are being collected, [acc] being those read so
    far.  The name ends at the first [>]; a name that does not end raises
    whatever it holds.  (The tokenizer of [re] pairs a backslash in a name
    with the character after it, be that [>]; a name with a backslash is a
    bad one wherever it ends, so that the outcome is the same.) *)
Fixpoint parse_template_go (name : option pystr) (s : pystr)
  : result (list titem) :=
  match name with
  | Some acc =>
      match s with
      | [] => Raise ReError                       (* missing >, unterminated name *)
      | c :: rest =>
          if c =? 62 (* > *) then
            match group_ref acc with
            | Ok _ => tcons TGroup0 (parse_template_go None rest)
            | Raise e => Raise e
            end
          else parse_template_go (Some (acc ++ [c])) rest
      end
  | None =>
      match s with
      | [] => Ok []
      | c :: rest =>
          if c =? backslash then
            match rest with
            | [] => Raise ReError                 (* bad escape (end of pattern) *)
            | e :: rest1 =>
                if e =? 103 (* g *) then
                  match rest1 with
                  | lt :: rest2 =>
                      if lt =? 60 (* < *)
                      then parse_template_go (Some []) rest2
                      else Raise ReError          (* missing < *)
                  | [] => Raise ReError
                  end
                else if e =? 48 (* 0 *) then
                  match rest1 with
                  | d1 :: rest2 =>
                      if is_octdigit d1 then
                        match rest2 with
                        | d2 :: rest3 =>
                            if is_octdigit d2
                            then tcons (TLit (N.land (8 * digit_val d1 + digit_val d2) 255))
                                       (parse_template_go None rest3)
                            else tcons (TLit (digit_val d1)) (parse_template_go None rest2)
                        | [] => tcons (TLit (digit_val d1)) (parse_template_go None rest2)
                        end
                      else tcons (TLit 0) (parse_template_go None rest1)
                  | [] => tcons (TLit 0) (parse_template_go None rest1)
                  end
                else if is_digit e then
                  match rest1 with
                  | d1 :: rest2 =>
                      if is_digit d1 then
                        match rest2 with
                        | d2 :: rest3 =>
                            if is_octdigit e && is_octdigit d1 && is_octdigit d2 then
                              let v := 64 * digit_val e + 8 * digit_val d1 + digit_val d2 in
                              if 255 <? v
                              then Raise ReError  (* octal escape value outside of range *)
                              else tcons (TLit v) (parse_template_go None rest3)
                            else Raise ReError    (* invalid group reference *)
                        | [] => Raise ReError
                        end
                      else Raise ReError
                  | [] => Raise ReError
                  end
                else
                  match escape_of e with
                  | Some x => tcons (TLit x) (parse_template_go None rest1)
                  | None =>
                      if is_ascii_letter e
                      then Raise ReError          (* bad escape *)
                      else tcons (TLit c) (tcons (TLit e) (parse_template_go None rest1))
                  end
            end
          else tcons (TLit c) (parse_template_go None rest)
      end
  end.

Definition parse_template (repl : pystr) : result (list titem) :=
  parse_template_go None repl.

(** [Match.expand]: the replacement text for the match [m]. *)
Fixpoint expand (t : list titem) (m : pystr) : pystr :=
  match t with
  | [] => []
  | TLit c :: t' => c :: expand t' m
  | TGroup0 :: t' => m ++ expand t' m
  end.

(** ** [re.sub]

    The scan of [pattern.sub] with [count=0]: at each position, left to
    right, a match is replaced and the scan resumes after it; otherwise the
    character is copied.  [skip] counts the characters of the current match
    still to pass over.  A match of these patterns is never empty. *)
Fixpoint subx_go (p : pattern) (t : list titem) (skip : nat) (s : pystr) : pystr :=
  match s with
  | [] => []
  | c :: s' =>
      match skip with
      | S k => subx_go p t k s'
      | O =>
          match match_at p s with
          | Some n => expand t (take n s) ++ subx_go p t (pred n) s'
          | None => c :: subx_go p t 0 s'
          end
      end
  end.

Definition subx (p : pattern) (t : list titem) (s : pystr) : pystr :=
  subx_go p t 0 s.

(** [re.sub(pattern, repl, string, flags=re.DOTALL)]: the template is
    compiled first, whether or not the pattern matches anywhere. *)
Definition re_sub (p : pattern) (repl : pystr) (s : pystr) : result pystr :=
  result_bind (parse_template repl) (λ t, Ok (subx p t s)).

(** ** The three declarations *)

Inductive tname : Type := Basic | Timelock | Weighted.

Definition const_name (n : tname) : string :=
  match n with
  | Basic => "BASIC_TEMPLATE_LIB"
  | Timelock => "TIMELOCK_TEMPLATE_LIB"
  | Weighted => "WEIGHTED_TEMPLATE_LIB"
  end.

(** [const <NAME>_TEMPLATE_LIB: &str = r#] followed by the double quote. *)
Definition decl_head (n : tname) : pystr :=
  lit "const " ++ lit (const_name n) ++ lit ": &str = r#".
Definition raw_open (n : tname) : pystr := decl_head n ++ [dquote].
Definition raw_close : pystr := dquote :: lit "#;".

(** The pattern [r'const <NAME>_TEMPLATE_LIB: &str = r#".*?"#;']. *)
Definition decl_pattern (n : tname) : pattern := Pattern (raw_open n) raw_close.

(** The f-string [f'const <NAME>_TEMPLATE_LIB: &str = r#"{lib}"#;']. *)
Definition decl_fstring (n : tname) (lib : pystr) : pystr :=
  raw_open n ++ lib ++ raw_close.

Definition sub_decl (n : tname) (lib : pystr) (cli_content : pystr) : result pystr :=
  re_sub (decl_pattern n) (decl_fstring n lib) cli_content.

(** The three substitutions of the script, in its order. *)
Definition replace_embedded (basic_lib timelock_lib weighted_lib cli_content : pystr)
  : result pystr :=
  result_bind (sub_decl Basic basic_lib cli_content) (λ cli_content,
  result_bind (sub_decl Timelock timelock_lib cli_content) (λ cli_content,
  sub_decl Weighted weighted_lib cli_content)).

(** ** Text files

    [open(path)] and [open(path, 'w')] are text mode: the bytes of a file
    are decoded on reading and encoded on writing, strictly.  The platform
    is POSIX, where writing translates no character; reading translates
    the line endings [\r\n] and [\r] to [\n] (universal newlines).  This
    part gives UTF-8, the encoding of the usual locale; the encoding the
    script meets is part of its environment, below. *)

Definition in_range (lo hi b : N) : bool := (lo <=? b) && (b <=? hi).
Definition is_cont (b : N) : bool := in_range 128 191 b.

Fixpoint utf8_decode (bs : list N) : option pystr :=
  match bs with
  | [] => Some []
  | b0 :: r0 =>
      if b0 <? 128 then cons b0 <$> utf8_decode r0
      else if in_range 194 223 b0 then
        match r0 with
        | b1 :: r1 =>
            if is_cont b1
            then cons ((b0 - 192) * 64 + (b1 - 128)) <$> utf8_decode r1
            else None
        | _ => None
        end
      else if in_range 224 239 b0 then
        match r0 with
        | b1 :: b2 :: r2 =>
            if in_range (if b0 =? 224 then 160 else 128)
                        (if b0 =? 237 then 159 else 191) b1 && is_cont b2
            then cons ((b0 - 224) * 4096 + (b1 - 128) * 64 + (b2 - 128))
                   <$> utf8_decode r2
            else None
        | _ => None
        end
      else if in_range 240 244 b0 then
        match r0 with
        | b1 :: b2 :: b3 :: r3 =>
            if in_range (if b0 =? 240 then 144 else 128)
                        (if b0 =? 244 then 143 else 191) b1
               && is_cont b2 && is_cont b3
            then cons ((b0 - 240) * 262144 + (b1 - 128) * 4096
                       + (b2 - 128) * 64 + (b3 - 128))
                   <$> utf8_decode r3
            else None
        | _ => None
        end
      else None
  end.

Definition utf8_encode_char (c : N) : option (list N) :=
  if c <? 128 then Some [c]
  else if c <? 2048 then Some [192 + c / 64; 128 + c mod 64]
  else if c <? 65536 then
    if in_range 55296 57343 c then None
    else Some [224 + c / 4096; 128 + (c / 64) mod 64; 128 + c mod 64]
  else if c <? 1114112 then
    Some [240 + c / 262144; 128 + (c / 4096) mod 64;
          128 + (c / 64) mod 64; 128 + c mod 64]
  else None.

Fixpoint utf8_encode (s : pystr) : option (list N) :=
  match s with
  | [] => Some []
  | c :: s' =>
      match utf8_encode_char c, utf8_encode s' with
      | Some bs, Some r => Some (bs ++ r)
      | _, _ => None
      end
  end.

Fixpoint universal_newlines (s : pystr) : pystr :=
  match s with
  | [] => []
  | c :: rest =>
      if c =? 13 then
        10 :: match rest with
              | d :: rest' =>
                  if d =? 10 then universal_newlines rest'
                  else universal_newlines rest
              | [] => []
              end
      else c :: universal_newlines rest
  end.

(** [f.read()] of a text file with these bytes. *)
Definition decode_text (data : list byte) : option pystr :=
  universal_newlines <$> utf8_decode (Byte.to_N <$> data).

(** The bytes [f.write(s)] puts into a text file. *)
Definition encode_text (s : pystr) : option (list byte) :=
  utf8_encode s ≫= mapM Byte.of_N.

(** ** The environment

    [open] without [encoding=] takes the encoding of the locale, and
    [print] that of [sys.stdout]; neither is set by the script.  An
    encoding is given by its two functions, strict in both directions. *)

Record codec : Type := Codec {
  decode : list byte → option pystr;
  encode : pystr → option (list byte)
}.

Definition utf8 : codec :=
  Codec (λ data, utf8_decode (Byte.to_N <$> data)) encode_text.


Definition ascii_codec : codec :=
  Codec (mapM (λ b, if Byte.to_N b <? 128 then Some (Byte.to_N b) else None))
        (mapM (λ c, if c <? 128 then Byte.of_N c else None)).

Record Env : Type := mkEnv {
  file_encoding : codec;                  (* [locale.getencoding()] *)
  stdout_encoding : codec                 (* [sys.stdout.encoding] *)
}.

(** A UTF-8 locale. *)
Definition utf8_env : Env := mkEnv utf8 utf8.

(** ** The world: file system and console *)

Inductive event : Type :=
| EvOpenRead (path : string)
| EvOpenWrite (path : string)             (* [open(path, 'w')]: the file is truncated *)
| EvWrite (path : string) (data : list byte)
| EvPrint (line : pystr).

Record World : Type := mkWorld {
  files : gmap string (list byte);        (* the readable files and their bytes *)
  readonly : gset string;                 (* paths that cannot be opened for writing *)
  trace : list event                      (* what was done so far, oldest first *)
}.

Definition log (e : event) (w : World) : World :=
  mkWorld (files w) (readonly w) (trace w ++ [e]).

Definition set_file (path : string) (data : list byte) (w : World) : World :=
  mkWorld (<[path := data]> (files w)) (readonly w) (trace w).

(** Programs: a state monad over the world with exceptions.  An exception
    ends the run; the world is the one reached when it was raised. *)
Definition IO (A : Type) : Type := World → result A * World.

Definition io_ret {A} (a : A) : IO A := λ w, (Ok a, w).

Definition io_bind {A B} (m : IO A) (k : A → IO B) : IO B :=
  λ w, match m w with
       | (Ok a, w') => k a w'
       | (Raise e, w') => (Raise e, w')
       end.

Definition io_lift {A} (r : result A) : IO A := λ w, (r, w).

#[global] Instance io_mret : MRet IO := @io_ret.
#[global] Instance io_mbind : MBind IO := λ A B k m, io_bind m k.

(** [with open(path) as f: return f.read()] *)
Definition read_text (enc : codec) (path : string) : IO pystr :=
  λ w, match files w !! path with
       | None => (Raise (FileNotFoundError path), w)
       | Some data =>
           match universal_newlines <$> decode enc data with
           | Some s => (Ok s, log (EvOpenRead path) w)
           | None => (Raise (UnicodeDecodeError path), log (EvOpenRead path) w)
           end
       end.

(** [with open(path, 'w') as f: f.write(s)]: the text is encoded as a
    whole before any byte reaches the file. *)
Definition write_text (enc : codec) (path : string) (s : pystr) : IO () :=
  λ w, if decide (path ∈ readonly w)
       then (Raise (PermissionError path), w)
       else
         let w1 := log (EvOpenWrite path) (set_file path [] w) in
         match encode enc s with
         | None => (Raise (UnicodeEncodeError path), w1)
         | Some data => (Ok (), log (EvWrite path data) (set_file path data w1))
         end.

Definition stdout_name : string := "<stdout>".

(** [print(s)]: the line is encoded for [sys.stdout] when it is written,
    and nothing of it is written when that fails.  (The newline that ends
    the line is ASCII.) *)
Definition print (enc : codec) (s : pystr) : IO () :=
  λ w, match encode enc s with
       | None => (Raise (UnicodeEncodeError stdout_name), w)
       | Some _ => (Ok (), log (EvPrint s) w)
       end.

(** ** The script *)

Definition basic_path : string := "templates/basic/contract/src/lib.rs".
Definition timelock_path : string := "templates/timelock/contract/src/lib.rs".
Definition weighted_path : string := "templates/weighted/contract/src/lib.rs".
Definition cli_path : string := "cli/src/commands/init.rs".

Definition success_line : pystr :=
  9989 :: lit " CLI templates regenerated successfully!".

Definition report_line (label : string) (lib : pystr) : pystr :=
  lit "  " ++ lit label ++ lit " template: "
    ++ py_str_of_nat (length lib) ++ lit " bytes".

(** The script, run in an environment. *)
Definition regenerate_templates_in (env : Env) : IO () :=
  basic_lib ← read_text (file_encoding env) basic_path;
  timelock_lib ← read_text (file_encoding env) timelock_path;
  weighted_lib ← read_text (file_encoding env) weighted_path;
  cli_content ← read_text (file_encoding env) cli_path;
  cli_content ← io_lift (sub_decl Basic basic_lib cli_content);
  cli_content ← io_lift (sub_decl Timelock timelock_lib cli_content);
  cli_content ← io_lift (sub_decl Weighted weighted_lib cli_content);
  write_text (file_encoding env) cli_path cli_content;;
  print (stdout_encoding env) success_line;;
  print (stdout_encoding env) (report_line "Basic" basic_lib);;
  print (stdout_encoding env) (report_line "Timelock" timelock_lib);;
  print (stdout_encoding env) (report_line "Weighted" weighted_lib).

(** The script in a UTF-8 locale. *)
Definition regenerate_templates : IO () := regenerate_templates_in utf8_env.

(** * Notions used in the statements *)

(** ** Texts *)

(** [contains x s]: the literal [x] occurs somewhere in [s] ([x in s]). *)
Fixpoint contains (x s : pystr) : bool :=
  starts_with x s
  || match s with
     | [] => false
     | _ :: s' => contains x s'
     end.

(** The letter c of [const]: the first character of every opener. *)
Definition c_const : N := 99.

(** [re.findall] with a group around the lazy part: the payloads of the
    regions of a pattern, in the order of the scan. *)
Fixpoint payloads_go (p : pattern) (skip : nat) (s : pystr) : list pystr :=
  match s with
  | [] => []
  | _ :: s' =>
      match skip with
      | S k => payloads_go p k s'
      | O =>
          match match_at p s with
          | Some n =>
              take (n - length (opener p) - length (closer p))
                   (drop (length (opener p)) s)
                :: payloads_go p (pred n) s'
          | None => payloads_go p 0 s'
          end
      end
  end.

Definition payloads (n : tname) (s : pystr) : list pystr :=
  payloads_go (decl_pattern n) 0 s.

(** A document is settled for the name [n] and the text [lib] when every
    opener of [n] in it that is followed by a closing delimiter at all is
    followed at once by [lib] and a closing delimiter. *)
Definition settled (n : tname) (lib s : pystr) : Prop :=
  ∀ a b, s = a ++ raw_open n ++ b → contains raw_close b = true →
         ∃ r, b = lib ++ raw_close ++ r.

(** ** Templates *)

(** A text without the head [const <NAME>_TEMPLATE_LIB: &str = r#] of any
    of the three declarations. *)
Definition headless (s : pystr) : bool :=
  negb (contains (decl_head Basic) s)
  && negb (contains (decl_head Timelock) s)
  && negb (contains (decl_head Weighted) s).

(** A text that contains neither the closing delimiter nor a head. *)
Definition inert (s : pystr) : bool :=
  negb (contains raw_close s)
  && negb (contains (decl_head Basic) s)
  && negb (contains (decl_head Timelock) s)
  && negb (contains (decl_head Weighted) s).

(** A template that, besides, contains no backslash. *)
Definition plain (lib : pystr) : bool :=
  negb (contains [backslash] lib) && inert lib.

(** The template of a name. *)
Definition lib_of (basic_lib timelock_lib weighted_lib : pystr) (n : tname) : pystr :=
  match n with
  | Basic => basic_lib
  | Timelock => timelock_lib
  | Weighted => weighted_lib
  end.

(** The substitution for the name [n] when the f-string is taken
    literally. *)
Definition embed (n : tname) (lib s : pystr) : pystr :=
  subx (decl_pattern n) (TLit <$> decl_fstring n lib) s.

(** What [replace_embedded] computes when the f-strings are literal. *)
Definition embed_all (basic_lib timelock_lib weighted_lib s : pystr) : pystr :=
  embed Weighted weighted_lib (embed Timelock timelock_lib (embed Basic basic_lib s)).

(** A replacement string that [re.sub] takes as it is written: every
    backslash in it is followed by a character that is neither an ASCII
    letter, nor a digit, nor a backslash, and [parse_template] keeps both
    characters. *)
Fixpoint taken_literally (s : pystr) : bool :=
  match s with
  | [] => true
  | c :: rest =>
      if c =? backslash then
        match rest with
        | [] => false
        | e :: rest1 =>
            negb (is_ascii_letter e) && negb (is_digit e) && negb (e =? backslash)
            && taken_literally rest1
        end
      else taken_literally rest
  end.

(** An item of a compiled template whose literal character, if it is one,
    satisfies [P]. *)
Definition titem_chars (P : N → Prop) (i : titem) : Prop :=
  match i with
  | TLit c => P c
  | TGroup0 => True
  end.

(** ** Documents laid out as declarations

    The shape the target file is meant to have: declarations of the three
    names, each preceded by other text, and a final stretch of text.  The
    other text holds no declaration head; an old payload holds neither a
    head nor the closing delimiter. *)

#[global] Instance tname_eq_dec : EqDecision tname.
Proof. solve_decision. Defined.

(** Text before the declaration, its name, its payload. *)
Definition layout : Type := list (pystr * tname * pystr).

(** The document of a layout, each declaration written by [decl]. *)
Fixpoint render_with (decl : tname → pystr → pystr) (l : layout) (tail : pystr)
  : pystr :=
  match l with
  | [] => tail
  | (gap, n, payload) :: l' => gap ++ decl n payload ++ render_with decl l' tail
  end.

(** The document of a layout. *)
Fixpoint render (l : layout) (tail : pystr) : pystr :=
  match l with
  | [] => tail
  | (gap, n, payload) :: l' =>
      gap ++ raw_open n ++ payload ++ raw_close ++ render l' tail
  end.

Definition well_laid (l : layout) (tail : pystr) : bool :=
  forallb (λ '(gap, _, payload), headless gap && inert payload) l
  && headless tail.

(** The layout with the payload of every declaration of [n] set to [lib]. *)
Definition set_payload (n : tname) (lib : pystr) (l : layout) : layout :=
  (λ '(gap, m, payload), (gap, m, if decide (m = n) then lib else payload)) <$> l.


(** The payloads of the declarations of [n] in a layout, in order. *)
Definition payloads_of (n : tname) (l : layout) : list pystr :=
  omap (λ '(_, m, payload), if decide (m = n) then Some payload else None) l.

(** ** Text files *)

(** The Unicode scalar values: what a text file can hold. *)
Definition scalar (c : N) : bool :=
  (c <? 55296) || ((57343 <? c) && (c <? 1114112)).

(** A character of a text as [f.read()] returns it: no carriage return is
    left by the translation of line endings. *)
Definition text_char (c : N) : bool := scalar c && negb (c =? 13).

(** The number of bytes of the UTF-8 encoding of a text. *)
Definition byte_length (s : pystr) : option nat := length <$> encode_text s.

(** A file of ASCII bytes without a carriage return. *)
Definition ascii_file (data : list byte) : Prop :=
  Forall (λ b, Byte.to_N b < 128 ∧ Byte.to_N b ≠ 13) data.

(** The text [f.read()] returns for the file at [path], if it can be read
    (in a UTF-8 locale). *)
Definition text_of (w : World) (path : string) : option pystr :=
  files w !! path ≫= decode_text.

(** The same when the locale has the encoding [enc]; [text_of] is
    [text_in utf8]. *)
Definition text_in (enc : codec) (w : World) (path : string) : option pystr :=
  files w !! path ≫= λ data, universal_newlines <$> decode enc data.

(** ** Events and runs *)

Definition is_read (e : event) : Prop :=
  match e with
  | EvOpenRead _ => True
  | _ => False
  end.

Definition no_print (e : event) : Prop :=
  match e with
  | EvPrint _ => False
  | _ => True
  end.

(** The files written by a sequence of events, in order. *)
Definition writes (es : list event) : list (string * list byte) :=
  omap (λ e, match e with
             | EvWrite path data => Some (path, data)
             | _ => None
             end) es.

(** The four reads of the script. *)
Definition the_reads : list event :=
  [EvOpenRead basic_path; EvOpenRead timelock_path;
   EvOpenRead weighted_path; EvOpenRead cli_path].

(** The four lines of the report. *)
Definition report (basic_lib timelock_lib weighted_lib : pystr) : list pystr :=
  [success_line; report_line "Basic" basic_lib;
   report_line "Timelock" timelock_lib; report_line "Weighted" weighted_lib].

(** The world after the four files were read. *)
Definition after_reads (w : World) : World :=
  mkWorld (files w) (readonly w) (trace w ++ the_reads).

(** The world after a complete run that wrote [data]. *)
Definition final_world (w : World) (basic_lib timelock_lib weighted_lib : pystr)
    (data : list byte) : World :=
  mkWorld (<[cli_path := data]> (files w)) (readonly w)
    (trace w ++ the_reads ++ [EvOpenWrite cli_path; EvWrite cli_path data]
       ++ (EvPrint <$> report basic_lib timelock_lib weighted_lib)).

(** The outcome of the script in a UTF-8 locale once the four files were
    read, case by case ([run_after_reads] shows that the script computes
    it). *)
Definition after_reading (w : World) (basic_lib timelock_lib weighted_lib cli_content : pystr)
  : result () * World :=
  match replace_embedded basic_lib timelock_lib weighted_lib cli_content with
  | Raise e => (Raise e, after_reads w)
  | Ok out =>
      if decide (cli_path ∈ readonly w)
      then (Raise (PermissionError cli_path), after_reads w)
      else
        match encode_text out with
        | None =>
            (Raise (UnicodeEncodeError cli_path),
             mkWorld (<[cli_path := []]> (files w)) (readonly w)
               (trace w ++ the_reads ++ [EvOpenWrite cli_path]))
        | Some data =>
            (Ok (), final_world w basic_lib timelock_lib weighted_lib data)
        end
  end.

(** The lines of a list that are printed before one of them cannot be
    encoded for standard output. *)
Fixpoint printed (enc : codec) (lines : list pystr) : list pystr :=
  match lines with
  | [] => []
  | line :: lines' =>
      match encode enc line with
      | Some _ => line :: printed enc lines'
      | None => []
      end
  end.

(** [data] is what a run in [env] computes from the files of [w] and
    writes: the encoding of the result of the three substitutions made
    with the three templates on the text of the target, as they are read
    in [w]. *)
Definition computed (env : Env) (w : World)
    (basic_lib timelock_lib weighted_lib : pystr) (data : list byte) : Prop :=
  ∃ cli_content out,
    text_in (file_encoding env) w basic_path = Some basic_lib
    ∧ text_in (file_encoding env) w timelock_path = Some timelock_lib
    ∧ text_in (file_encoding env) w weighted_path = Some weighted_lib
    ∧ text_in (file_encoding env) w cli_path = Some cli_content
    ∧ replace_embedded basic_lib timelock_lib weighted_lib cli_content = Ok out
    ∧ encode (file_encoding env) out = Some data.

(** The outcome, in any environment, once the four files were read
    ([run_in_after_reads] shows that the script computes it). *)
Definition outcome_in (env : Env) (w : World)
    (basic_lib timelock_lib weighted_lib cli_content : pystr)
  : result () * World :=
  match replace_embedded basic_lib timelock_lib weighted_lib cli_content with
  | Raise e => (Raise e, after_reads w)
  | Ok out =>
      if decide (cli_path ∈ readonly w)
      then (Raise (PermissionError cli_path), after_reads w)
      else
        match encode (file_encoding env) out with
        | None =>
            (Raise (UnicodeEncodeError cli_path),
             mkWorld (<[cli_path := []]> (files w)) (readonly w)
               (trace w ++ the_reads ++ [EvOpenWrite cli_path]))
        | Some data =>
            let lines :=
              printed (stdout_encoding env)
                (report basic_lib timelock_lib weighted_lib) in
            (if decide (lines = report basic_lib timelock_lib weighted_lib)
             then Ok () else Raise (UnicodeEncodeError stdout_name),
             mkWorld (<[cli_path := data]> (files w)) (readonly w)
               (trace w ++ the_reads
                  ++ [EvOpenWrite cli_path; EvWrite cli_path data]
                  ++ (EvPrint <$> lines)))
        end
  end.

(** The order of the three substitutions. *)
Definition before (m n : tname) : bool :=
  match m, n with
  | Basic, Timelock | Basic, Weighted | Timelock, Weighted => true
  | _, _ => false
  end.



(** ** Example worlds *)

(** The bytes of a file that holds the text [s]. *)
Definition file_of (s : pystr) : list byte := default [] (encode_text s).

(** The four files hold the given texts, the target can be written,
    nothing has happened yet. *)
Definition world_with (basic_lib timelock_lib weighted_lib cli_content : pystr)
  : World :=
  mkWorld (<[basic_path := file_of basic_lib]>
           (<[timelock_path := file_of timelock_lib]>
            (<[weighted_path := file_of weighted_lib]>
             (<[cli_path := file_of cli_content]> ∅))))
          ∅ [].

(** The scenario of the specification: three placeholder declarations. *)
Definition scenario_layout : layout :=
  [(lit "// templates" ++ [10], Basic, lit "OLD_BASIC");
   ([10], Timelock, lit "OLD_TIMELOCK");
   ([10], Weighted, lit "OLD_WEIGHTED")].

Definition scenario_world : World :=
  world_with (lit "fn main() {}") (lit "fn locked() {}") (lit "fn weighted() {}")
    (render scenario_layout [10]).


(** A world in which only the target file exists. *)
Definition world_without_templates : World :=
  mkWorld (<[cli_path := file_of (render scenario_layout [10])]> ∅) ∅ [].

(** The scenario with a target that cannot be opened for writing. *)
Definition scenario_world_read_only : World :=
  mkWorld (files scenario_world) {[cli_path]} [].

(** The scenario with a weighted template that holds a Rust escape. *)
Definition scenario_world_escape : World :=
  world_with (lit "fn main() {}") (lit "fn locked() {}")
    (lit "let s = '\x41';") (render scenario_layout [10]).

(** The scenario with a weighted template that is not valid UTF-8. *)
Definition world_with_undecodable_template : World :=
  mkWorld (<[weighted_path := [xff]%byte]> (files scenario_world)) ∅ [].




(** * Lemmas *)

(** ** Literal search in strings *)

Lemma starts_with_spec (x s : pystr) :
  starts_with x s = true ↔ ∃ r, s = x ++ r.
Proof.
  revert s; induction x as [|c x IH]; intros s; simpl.
  - split; eauto.
  - destruct s as [|d s].
    + split; [done|]. by intros [r Hr].
    + rewrite andb_true_iff, N.eqb_eq, IH. split.
      * intros [-> [r ->]]. eauto.
      * intros [r Hr]. simplify_eq. eauto.
Qed.

Lemma starts_with_app (x r : pystr) : starts_with x (x ++ r) = true.
Proof. apply starts_with_spec; eauto. Qed.

Lemma starts_with_false (x s : pystr) :
  starts_with x s = false ↔ ∀ r, s ≠ x ++ r.
Proof.
  rewrite <-not_true_iff_false, starts_with_spec. split.
  - intros H r ->. apply H; eauto.
  - intros H [r ->]. by apply (H r).
Qed.

Lemma contains_spec (x s : pystr) :
  contains x s = true ↔ ∃ a b, s = a ++ x ++ b.
Proof.
  induction s as [|c s IH]; simpl.
  - rewrite orb_false_r, starts_with_spec. split.
    + intros [r ->]. by exists [], r.
    + intros (a & b & H). destruct a; simpl in H; [eauto|done].
  - rewrite orb_true_iff, starts_with_spec, IH. split.
    + intros [[r ->]|(a & b & ->)]; [by exists [], r|by exists (c :: a), b].
    + intros (a & b & H). destruct a as [|d a]; simpl in H.
      * left; eauto.
      * right. simplify_eq. eauto.
Qed.

Lemma contains_false (x s : pystr) :
  contains x s = false ↔ ∀ a b, s ≠ a ++ x ++ b.
Proof.
  rewrite <-not_true_iff_false, contains_spec. split.
  - intros H a b ->. apply H; eauto.
  - intros H (a & b & ->). by apply (H a b).
Qed.

Lemma contains_cons_false (x : pystr) (c : N) (s : pystr) :
  contains x (c :: s) = false → contains x s = false.
Proof. simpl. by intros [_ ?]%orb_false_iff. Qed.

Lemma contains_app_false_l (x u v : pystr) :
  contains x (u ++ v) = false → contains x u = false.
Proof.
  rewrite !contains_false. intros H a b ->.
  apply (H a (b ++ v)). by rewrite <-!app_assoc.
Qed.

Lemma contains_app_false_r (x u v : pystr) :
  contains x (u ++ v) = false → contains x v = false.
Proof.
  rewrite !contains_false. intros H a b ->.
  apply (H (u ++ a) b). by rewrite <-!app_assoc.
Qed.

(** A single character occurs in a concatenation iff it occurs in a part. *)
Lemma contains_char_app (c : N) (u v : pystr) :
  contains [c] (u ++ v) = contains [c] u || contains [c] v.
Proof.
  induction u as [|d u IH]; simpl.
  - destruct v; simpl; by rewrite ?orb_false_r.
  - rewrite IH. destruct (c =? d); simpl; [done|].
    by destruct u.
Qed.

Lemma contains_char_elem (c : N) (s : pystr) :
  contains [c] s = false ↔ c ∉ s.
Proof.
  induction s as [|d s IH]; simpl.
  - split; [intros _; apply not_elem_of_nil|done].
  - rewrite not_elem_of_cons, <-IH.
    destruct (N.eqb_spec c d) as [->|Hne]; simpl.
    + split; [done|]. by intros [? _].
    + split; [by intros ?|by intros [_ ?]].
Qed.

(** ** The lazy quantifier *)

Lemma lazy_until_None (c s : pystr) :
  lazy_until c s = None ↔ contains c s = false.
Proof.
  induction s as [|d s IH]; simpl.
  - destruct (starts_with c []); simpl; split; done.
  - destruct (starts_with c (d :: s)); simpl; [split; done|].
    rewrite <-IH. destruct (lazy_until c s); simpl; split; done.
Qed.

Lemma lazy_until_split (c s : pystr) (k : nat) :
  lazy_until c s = Some k →
  ∃ payload rest, s = payload ++ c ++ rest ∧ length payload = k.
Proof.
  revert k; induction s as [|d s IH]; intros k; simpl.
  - destruct (starts_with c []) eqn:E; [|done].
    intros [= <-]. apply starts_with_spec in E as [r Hr]. by exists [], r.
  - destruct (starts_with c (d :: s)) eqn:E.
    + intros [= <-]. apply starts_with_spec in E as [r Hr]. by exists [], r.
    + destruct (lazy_until c s) as [k'|]; simpl; [|done].
      intros [= <-]. destruct (IH k' eq_refl) as (pl & rest & -> & <-).
      by exists (d :: pl), rest.
Qed.

Lemma lazy_until_le (c s : pystr) (k : nat) :
  lazy_until c s = Some k → (k + length c ≤ length s)%nat.
Proof.
  intros (pl & rest & -> & <-)%lazy_until_split.
  rewrite !length_app. lia.
Qed.

(** ** One match *)

Lemma match_at_Some (p : pattern) (s : pystr) (n : nat) :
  match_at p s = Some n ↔
  ∃ body k, s = opener p ++ body ∧ lazy_until (closer p) body = Some k
            ∧ n = (length (opener p) + k + length (closer p))%nat.
Proof.
  unfold match_at. destruct (starts_with (opener p) s) eqn:E.
  - apply starts_with_spec in E as [body ->].
    rewrite drop_app_length. split.
    + destruct (lazy_until (closer p) body) as [k|] eqn:Hk; simpl; [|done].
      intros [= <-]. by exists body, k.
    + intros (body' & k & Hb & Hk & ->). simplify_list_eq. by rewrite Hk.
  - split; [done|]. intros (body & k & -> & _).
    by rewrite starts_with_app in E.
Qed.

Lemma match_at_None (p : pattern) (s : pystr) :
  match_at p s = None ↔
  starts_with (opener p) s = false
  ∨ ∃ body, s = opener p ++ body ∧ contains (closer p) body = false.
Proof.
  unfold match_at. destruct (starts_with (opener p) s) eqn:E.
  - apply starts_with_spec in E as [body ->].
    rewrite drop_app_length, fmap_None, lazy_until_None. split.
    + intros H. right. by exists body.
    + intros [?|(body' & Hb & H)]; [done|]. by simplify_list_eq.
  - split; [by left|done].
Qed.

Lemma match_at_le (p : pattern) (s : pystr) (n : nat) :
  match_at p s = Some n → (n ≤ length s)%nat.
Proof.
  intros (body & k & -> & Hk%lazy_until_le & ->)%match_at_Some.
  rewrite length_app. lia.
Qed.

(** No closing literal anywhere: nothing matches. *)
Lemma match_at_no_closer (p : pattern) (s : pystr) :
  contains (closer p) s = false → match_at p s = None.
Proof.
  intros H. apply match_at_None.
  destruct (starts_with (opener p) s) eqn:E; [right|by left].
  apply starts_with_spec in E as [body ->]. exists body. split; [done|].
  by apply contains_app_false_r in H.
Qed.

(** ** The scan of [re.sub] *)

Section Scan.
Context (p : pattern) (t : list titem).
Hypothesis opener_nonempty : opener p ≠ [].

Lemma subx_nil : subx p t [] = [].
Proof. done. Qed.

Lemma subx_go_skip (k : nat) (s : pystr) :
  (k ≤ length s)%nat → subx_go p t k s = subx p t (drop k s).
Proof using Type.
  revert k; induction s as [|c s IH]; intros k Hk.
  - by destruct k.
  - destruct k as [|k]; [done|]. simpl in *. apply IH. lia.
Qed.

Lemma match_at_pos (s : pystr) (n : nat) :
  match_at p s = Some n → (0 < n)%nat.
Proof using opener_nonempty.
  intros (body & k & _ & _ & ->)%match_at_Some.
  destruct (opener p); [done|simpl; lia].
Qed.

(** A match at the current position is replaced and the scan resumes
    right after it. *)
Lemma subx_match (s : pystr) (n : nat) :
  match_at p s = Some n →
  subx p t s = expand t (take n s) ++ subx p t (drop n s).
Proof using opener_nonempty.
  intros H. pose proof (match_at_pos _ _ H) as Hn.
  pose proof (match_at_le _ _ _ H) as Hle.
  destruct s as [|c s]; [simpl in Hle; lia|].
  unfold subx at 1. cbn [subx_go]. rewrite H.
  destruct n as [|n]; [lia|]. cbn [pred].
  rewrite subx_go_skip by (simpl in Hle; lia). done.
Qed.

(** Otherwise the character is copied. *)
Lemma subx_nomatch (c : N) (s : pystr) :
  match_at p (c :: s) = None → subx p t (c :: s) = c :: subx p t s.
Proof using Type. intros H. unfold subx. cbn [subx_go]. by rewrite H. Qed.

(** Induction along the scan. *)
Lemma scan_ind (P : pystr → Prop) :
  P [] →
  (∀ c s, match_at p (c :: s) = None → P s → P (c :: s)) →
  (∀ s n, match_at p s = Some n → P (drop n s) → P s) →
  ∀ s, P s.
Proof using opener_nonempty.
  intros Hnil Hcopy Hmatch s.
  remember (length s) as m eqn:Hm. revert s Hm.
  induction (lt_wf m) as [m _ IH]. intros s ->.
  destruct (match_at p s) as [n|] eqn:E.
  - apply (Hmatch s n E). apply (IH (length (drop n s))); [|done].
    rewrite length_drop.
    pose proof (match_at_pos _ _ E). pose proof (match_at_le _ _ _ E). lia.
  - destruct s as [|c s]; [done|]. apply Hcopy; [done|].
    apply (IH (length s)); [simpl; lia|done].
Qed.

(** Without the closing literal the text is left as it is. *)
Lemma subx_no_closer (s : pystr) :
  contains (closer p) s = false → subx p t s = s.
Proof using Type.
  induction s as [|c s IH]; [done|]. intros H.
  rewrite subx_nomatch by by apply match_at_no_closer.
  f_equal. apply IH. by apply contains_cons_false in H.
Qed.
End Scan.

(** Without an opener in the text nothing matches. *)
Lemma subx_no_opener (p : pattern) (t : list titem) (s : pystr) :
  contains (opener p) s = false → subx p t s = s.
Proof.
  induction s as [|c s IH]; [done|]. intros H.
  rewrite subx_nomatch.
  - f_equal. apply IH. by apply contains_cons_false in H.
  - apply match_at_None. left. cbn [contains] in H.
    by apply orb_false_iff in H as [? _].
Qed.

(** ** Literal replacement templates *)

Lemma expand_literal (r m : pystr) : expand (TLit <$> r) m = r.
Proof. induction r as [|c r IH]; [done|]. csimpl. by rewrite IH. Qed.

(** A replacement string without a backslash is taken literally. *)
Lemma parse_template_literal (r : pystr) :
  backslash ∉ r → parse_template r = Ok (TLit <$> r).
Proof.
  unfold parse_template. induction r as [|c r IH]; [done|].
  intros [Hc Hr]%not_elem_of_cons. cbn [parse_template_go].
  destruct (N.eqb_spec c backslash) as [->|_]; [done|].
  by rewrite IH, fmap_cons.
Qed.

(** ** The literals of the three declarations *)

Lemma raw_open_unfold (n : tname) : raw_open n = decl_head n ++ [dquote].
Proof. done. Qed.

(** Every opener starts with the letter [c], which occurs nowhere else in
    it, and holds a double quote only as its last character. *)
Lemma decl_head_shape (n : tname) :
  ∃ tl, decl_head n = c_const :: tl ∧ (c_const ∉ tl) ∧ (dquote ∉ tl).
Proof.
  destruct n; eexists; (split; [vm_compute; reflexivity|]);
    (split; apply contains_char_elem; reflexivity).
Qed.

Lemma raw_open_shape (n : tname) :
  ∃ tl, raw_open n = c_const :: tl ∧ (c_const ∉ tl).
Proof.
  destruct n; eexists; (split; [vm_compute; reflexivity|]);
    apply contains_char_elem; reflexivity.
Qed.

Lemma raw_open_nonempty (n : tname) : opener (decl_pattern n) ≠ [].
Proof. by destruct n. Qed.

Lemma raw_close_no_c : c_const ∉ raw_close.
Proof. apply contains_char_elem. reflexivity. Qed.

Lemma raw_open_no_backslash (n : tname) : backslash ∉ raw_open n.
Proof. destruct n; apply contains_char_elem; reflexivity. Qed.

Lemma raw_close_no_backslash : backslash ∉ raw_close.
Proof. apply contains_char_elem. reflexivity. Qed.

(** The three openers differ (at their seventh character). *)
Lemma raw_open_inj (n m : tname) (b b' : pystr) :
  raw_open n ++ b = raw_open m ++ b' → n = m.
Proof. destruct n, m; try done; intros H; vm_compute in H; discriminate H. Qed.

(** A text without the head of a declaration has no opener of it. *)
Lemma no_head_no_opener (n : tname) (s : pystr) :
  contains (decl_head n) s = false → contains (raw_open n) s = false.
Proof.
  rewrite !contains_false. intros H a b ->.
  apply (H a ([dquote] ++ b)). by rewrite raw_open_unfold, <-app_assoc.
Qed.

(** ** Regions *)

Lemma lazy_until_here (c s : pystr) :
  starts_with c s = true → lazy_until c s = Some 0%nat.
Proof. intros H. destruct s; simpl; by rewrite H. Qed.

Lemma lazy_until_min (c a b : pystr) (k : nat) :
  lazy_until c (a ++ c ++ b) = Some k → (k ≤ length a)%nat.
Proof.
  revert k; induction a as [|d a IH]; intros k; simpl.
  - rewrite lazy_until_here by apply starts_with_app. intros [= <-]. lia.
  - destruct (starts_with c (d :: a ++ c ++ b)); [intros [= <-]; lia|].
    destruct (lazy_until c (a ++ c ++ b)) as [k'|]; simpl; [|done].
    intros [= <-]. specialize (IH k' eq_refl). lia.
Qed.

(** The closing delimiter cannot begin inside a text that is free of it
    and end in a following closing delimiter. *)
Lemma raw_close_first (payload rest : pystr) :
  contains raw_close payload = false →
  lazy_until raw_close (payload ++ raw_close ++ rest) = Some (length payload).
Proof.
  induction payload as [|c pl IH]; intros H; [done|].
  cbn [lazy_until app]. rewrite IH by by apply contains_cons_false in H.
  cbn [contains] in H. apply orb_false_iff in H as [H _].
  assert (starts_with raw_close (c :: pl ++ raw_close ++ rest) = false) as ->; [|done].
  destruct pl as [|d [|e pl]]; cbn in H |- *.
  - by rewrite andb_false_r.
  - destruct (35 =? d); simpl; by rewrite ?andb_false_r.
  - done.
Qed.

Lemma lazy_until_payload (body : pystr) (k : nat) :
  lazy_until raw_close body = Some k →
  ∃ payload rest, body = payload ++ raw_close ++ rest
                  ∧ length payload = k ∧ contains raw_close payload = false.
Proof.
  intros Hk. destruct (lazy_until_split _ _ _ Hk) as (pl & rest & -> & <-).
  exists pl, rest. split_and!; [done..|].
  apply not_true_iff_false. intros (a & b & ->)%contains_spec.
  rewrite <-!app_assoc in Hk. apply lazy_until_min in Hk.
  rewrite !length_app in Hk. cbn in Hk. lia.
Qed.

Lemma region_unique (p1 r1 p2 r2 : pystr) :
  contains raw_close p1 = false → contains raw_close p2 = false →
  p1 ++ raw_close ++ r1 = p2 ++ raw_close ++ r2 → p1 = p2 ∧ r1 = r2.
Proof.
  intros H1 H2 E.
  pose proof (raw_close_first p1 r1 H1) as F1.
  pose proof (raw_close_first p2 r2 H2) as F2.
  rewrite E in F1. rewrite F1 in F2. injection F2 as Hlen.
  apply app_inj_1 in E as [-> E]; [|done].
  by apply app_inv_head in E.
Qed.

Section Decl.
Context (n : tname) (t : list titem).

Lemma match_at_decl (s : pystr) (k : nat) :
  match_at (decl_pattern n) s = Some k ↔
  ∃ payload rest, s = raw_open n ++ payload ++ raw_close ++ rest
                  ∧ contains raw_close payload = false
                  ∧ k = length (raw_open n ++ payload ++ raw_close).
Proof.
  rewrite match_at_Some. cbn [opener closer decl_pattern]. split.
  - intros (body & j & -> & (pl & rest & -> & <- & Hpl)%lazy_until_payload & ->).
    exists pl, rest. split_and!; [done..|]. rewrite !length_app. lia.
  - intros (pl & rest & -> & Hpl & ->).
    exists (pl ++ raw_close ++ rest), (length pl).
    split_and!; [done|by apply raw_close_first|]. rewrite !length_app. lia.
Qed.

(** The region that starts at the current position is replaced as a
    whole and the scan resumes after its closing delimiter. *)
Lemma subx_region (payload rest : pystr) :
  contains raw_close payload = false →
  subx (decl_pattern n) t (raw_open n ++ payload ++ raw_close ++ rest)
  = expand t (raw_open n ++ payload ++ raw_close)
      ++ subx (decl_pattern n) t rest.
Proof.
  intros Hpl.
  rewrite (subx_match _ _ (raw_open_nonempty n) _
             (length (raw_open n ++ payload ++ raw_close))).
  - replace (raw_open n ++ payload ++ raw_close ++ rest)
      with ((raw_open n ++ payload ++ raw_close) ++ rest)
      by by rewrite <-!app_assoc.
    by rewrite take_app_length, drop_app_length.
  - apply match_at_decl. by exists payload, rest.
Qed.

Lemma scan_decl_ind (P : pystr → Prop) :
  P [] →
  (∀ c s, match_at (decl_pattern n) (c :: s) = None → P s → P (c :: s)) →
  (∀ payload rest, contains raw_close payload = false → P rest →
     P (raw_open n ++ payload ++ raw_close ++ rest)) →
  ∀ s, P s.
Proof.
  intros Hnil Hcopy Hregion.
  apply (scan_ind (decl_pattern n) (raw_open_nonempty n)); [done..|].
  intros s k (pl & rest & -> & Hpl & ->)%match_at_decl HP.
  apply Hregion; [done|].
  replace (raw_open n ++ pl ++ raw_close ++ rest)
    with ((raw_open n ++ pl ++ raw_close) ++ rest) in HP
    by by rewrite <-!app_assoc.
  by rewrite drop_app_length in HP.
Qed.
End Decl.

#[global] Arguments raw_open : simpl never.
#[global] Arguments decl_head : simpl never.
#[global] Arguments raw_close : simpl never.

(** ** The payloads of the regions *)

Lemma payloads_go_skip (p : pattern) (k : nat) (s : pystr) :
  (k ≤ length s)%nat → payloads_go p k s = payloads_go p 0 (drop k s).
Proof.
  revert k; induction s as [|c s IH]; intros k Hk.
  - by destruct k.
  - destruct k as [|k]; [done|]. simpl in *. apply IH. lia.
Qed.

Lemma payloads_copy (n : tname) (c : N) (s : pystr) :
  match_at (decl_pattern n) (c :: s) = None →
  payloads n (c :: s) = payloads n s.
Proof. intros H. unfold payloads. cbn [payloads_go]. by rewrite H. Qed.

Lemma payloads_match (p : pattern) (s : pystr) (k : nat) :
  opener p ≠ [] → match_at p s = Some k →
  payloads_go p 0 s
  = take (k - length (opener p) - length (closer p)) (drop (length (opener p)) s)
      :: payloads_go p 0 (drop k s).
Proof.
  intros Hp H. pose proof (match_at_pos _ Hp _ _ H) as Hk.
  pose proof (match_at_le _ _ _ H) as Hle.
  destruct s as [|c s]; [simpl in Hle; lia|].
  cbn [payloads_go]. rewrite H.
  destruct k as [|k]; [lia|]. cbn [pred].
  rewrite payloads_go_skip by (simpl in Hle; lia). done.
Qed.

Lemma payloads_region (n : tname) (payload rest : pystr) :
  contains raw_close payload = false →
  payloads n (raw_open n ++ payload ++ raw_close ++ rest)
  = payload :: payloads n rest.
Proof.
  intros Hpl. unfold payloads.
  rewrite (payloads_match _ _ (length (raw_open n ++ payload ++ raw_close))
             (raw_open_nonempty n)).
  - cbn [opener closer decl_pattern]. f_equal.
    + rewrite drop_app_length.
      replace (length (raw_open n ++ payload ++ raw_close) - length (raw_open n)
               - length raw_close)%nat with (length payload)
        by (rewrite !length_app; lia).
      by rewrite take_app_length.
    + replace (raw_open n ++ payload ++ raw_close ++ rest)
        with ((raw_open n ++ payload ++ raw_close) ++ rest)
        by by rewrite <-!app_assoc.
      by rewrite drop_app_length.
  - apply match_at_decl. by exists payload, rest.
Qed.

(** ** Where an occurrence of a literal can start *)

(** An occurrence of [h :: x] cannot start inside a text without [h]. *)
Lemma occ_not_in (h : N) (x u v a b : pystr) :
  a ++ (h :: x) ++ b = u ++ v → h ∉ u →
  ∃ a', a = u ++ a' ∧ v = a' ++ (h :: x) ++ b.
Proof.
  revert a; induction u as [|c u IH]; intros a E Hh.
  - by exists a.
  - apply not_elem_of_cons in Hh as [Hc Hu]. destruct a as [|d a]; simpl in E.
    + by injection E as -> _.
    + injection E as -> E. destruct (IH a E Hu) as (a' & -> & ->). by exists a'.
Qed.

(** Nor inside a text [u] that does not contain it, when [u] is followed
    by a character that [x] does not have. *)
Lemma occ_not_across (h q : N) (x u v a b : pystr) :
  u ++ q :: v = a ++ (h :: x) ++ b →
  contains (h :: x) u = false → q ∉ x →
  ∃ a', a = u ++ a' ∧ q :: v = a' ++ (h :: x) ++ b.
Proof.
  revert a; induction u as [|c u IH]; intros a E Hu Hq.
  - by exists a.
  - destruct a as [|d a]; simpl in E.
    + exfalso. injection E as -> E.
      apply app_eq_app in E as [l [[-> _]|[-> E]]].
      * rewrite contains_false in Hu. by apply (Hu [] l).
      * destruct l as [|q' l].
        -- rewrite contains_false in Hu. apply (Hu [] []).
           by rewrite !app_nil_r.
        -- injection E as <- _. apply Hq.
           apply elem_of_app. right. apply elem_of_cons. by left.
    + injection E as <- E. apply contains_cons_false in Hu.
      destruct (IH a E Hu Hq) as (a' & -> & ->). by exists a'.
Qed.

(** After a payload and its closing delimiter: an opener can only start
    behind them, when the payload does not contain its head. *)
Lemma opener_after_payload (m : tname) (payload X a b : pystr) :
  contains (decl_head m) payload = false →
  payload ++ raw_close ++ X = a ++ raw_open m ++ b →
  ∃ a', a = payload ++ raw_close ++ a' ∧ X = a' ++ raw_open m ++ b.
Proof.
  intros Hpl E.
  destruct (decl_head_shape m) as (tl & Hhd & Hc & Hq).
  rewrite raw_open_unfold, Hhd in E. rewrite Hhd in Hpl.
  rewrite <-(app_assoc (c_const :: tl) [dquote] b) in E.
  destruct (occ_not_across c_const dquote tl payload (lit "#;" ++ X) a
              ([dquote] ++ b) E Hpl Hq) as (a1 & -> & E1).
  change (dquote :: lit "#;" ++ X) with (raw_close ++ X) in E1.
  symmetry in E1.
  destruct (occ_not_in c_const tl raw_close X a1 ([dquote] ++ b) E1
              raw_close_no_c) as (a2 & -> & ->).
  exists a2. split; [done|].
  by rewrite raw_open_unfold, Hhd, <-(app_assoc (c_const :: tl) [dquote] b).
Qed.

(** In a declaration followed by [X], an opener occurs either at the very
    start (and is the declaration's own) or inside [X]. *)
Lemma opener_in_declaration (n m : tname) (payload X a b : pystr) :
  contains (decl_head n) payload = false →
  a ++ raw_open n ++ b = raw_open m ++ payload ++ raw_close ++ X →
  (a = [] ∧ n = m ∧ b = payload ++ raw_close ++ X)
  ∨ ∃ a', a = raw_open m ++ payload ++ raw_close ++ a'
          ∧ X = a' ++ raw_open n ++ b.
Proof.
  intros Hpl E. destruct a as [|d a].
  - left. rewrite app_nil_l in E. pose proof (raw_open_inj _ _ _ _ E) as ->.
    by apply app_inv_head in E.
  - right.
    destruct (raw_open_shape m) as (tlm & Hm & Hcm).
    destruct (raw_open_shape n) as (tln & Hn & Hcn).
    rewrite Hm in E |- *. rewrite Hn in E. simpl in E. injection E as -> E.
    change (a ++ c_const :: tln ++ b) with (a ++ (c_const :: tln) ++ b) in E.
    destruct (occ_not_in _ _ _ _ _ _ E Hcm) as (a1 & -> & E1).
    rewrite <-Hn in E1.
    destruct (opener_after_payload n payload X a1 b Hpl E1) as (a2 & -> & ->).
    exists a2. split; [|done]. simpl. by rewrite <-?app_assoc.
Qed.

(** Text in which no opener starts is passed over, whatever the template. *)
Lemma subx_pass (n : tname) (t : list titem) (u X : pystr) :
  (∀ a b, u ++ X = a ++ raw_open n ++ b → ∃ a', a = u ++ a') →
  subx (decl_pattern n) t (u ++ X) = u ++ subx (decl_pattern n) t X.
Proof.
  induction u as [|c u IH]; intros H; [done|]. simpl.
  rewrite subx_nomatch.
  - f_equal. apply IH. intros a b E.
    destruct (H (c :: a) b) as [a' Ha]; [simpl; by rewrite E|].
    injection Ha as ->. by exists a'.
  - destruct (match_at (decl_pattern n) (c :: u ++ X)) as [k|] eqn:M; [|done].
    apply match_at_decl in M as (pl & rest & Hs & _).
    by destruct (H [] (pl ++ raw_close ++ rest) Hs) as [a' ?].
Qed.

Lemma subx_gap (n m : tname) (t : list titem) (gap X : pystr) :
  contains (decl_head n) gap = false →
  subx (decl_pattern n) t (gap ++ raw_open m ++ X)
  = gap ++ subx (decl_pattern n) t (raw_open m ++ X).
Proof.
  intros H. apply subx_pass. intros a b E.
  destruct (decl_head_shape n) as (tl & Hhd & Hc & _).
  destruct (raw_open_shape m) as (tlm & Hm & _).
  rewrite Hm, raw_open_unfold, Hhd, <-(app_assoc _ [dquote] b) in E.
  rewrite Hhd in H. simpl in E.
  destruct (occ_not_across _ _ _ _ _ _ _ E H Hc) as (a' & -> & _).
  by exists a'.
Qed.

(** ** Embedding a template literally *)

Lemma sub_decl_literal (n : tname) (lib s : pystr) :
  backslash ∉ lib → sub_decl n lib s = Ok (embed n lib s).
Proof.
  intros H. unfold sub_decl, re_sub. rewrite parse_template_literal; [done|].
  unfold decl_fstring. rewrite !not_elem_of_app.
  split_and!; [apply raw_open_no_backslash|done|apply raw_close_no_backslash].
Qed.


Section Embed.
Context (n : tname) (lib : pystr).

Lemma embed_nil : embed n lib [] = [].
Proof. done. Qed.

Lemma embed_copy (c : N) (s : pystr) :
  match_at (decl_pattern n) (c :: s) = None →
  embed n lib (c :: s) = c :: embed n lib s.
Proof. apply subx_nomatch. Qed.

Lemma embed_region (payload rest : pystr) :
  contains raw_close payload = false →
  embed n lib (raw_open n ++ payload ++ raw_close ++ rest)
  = raw_open n ++ lib ++ raw_close ++ embed n lib rest.
Proof.
  intros H. unfold embed. rewrite subx_region by done.
  rewrite expand_literal. unfold decl_fstring. by rewrite <-!app_assoc.
Qed.

Lemma embed_no_closer (s : pystr) :
  contains raw_close s = false → embed n lib s = s.
Proof. intros H. unfold embed. by apply subx_no_closer. Qed.


(** Text without the letter [c] in front of the result was copied. *)
Lemma embed_prefix_inv (x s b : pystr) :
  c_const ∉ x → embed n lib s = x ++ b →
  ∃ s0, s = x ++ s0 ∧ b = embed n lib s0.
Proof.
  revert s; induction x as [|d x IH]; intros s Hx E.
  - by exists s.
  - apply not_elem_of_cons in Hx as [Hd Hx].
    destruct s as [|c s]; [done|].
    destruct (match_at (decl_pattern n) (c :: s)) as [k|] eqn:M.
    + apply match_at_decl in M as (pl & rest & Hs & Hpl & _).
      rewrite Hs, embed_region in E by done.
      destruct (raw_open_shape n) as (tl & Hn & _).
      rewrite Hn in E. simpl in E. by injection E as <- _.
    + rewrite embed_copy in E by done. simpl in E. injection E as -> E.
      destruct (IH s Hx E) as (s0 & -> & ->). by exists s0.
Qed.

(** Text in which no opener starts is passed over. *)
Lemma embed_pass (u X : pystr) :
  (∀ a b, u ++ X = a ++ raw_open n ++ b → ∃ a', a = u ++ a') →
  embed n lib (u ++ X) = u ++ embed n lib X.
Proof. apply subx_pass. Qed.
End Embed.

(** ** Settled documents *)

Lemma settled_nil (n : tname) (lib : pystr) : settled n lib [].
Proof.
  intros a b E _. destruct (raw_open_shape n) as (tl & Hn & _).
  rewrite Hn in E. by destruct a.
Qed.

Lemma settled_suffix (n : tname) (lib u s : pystr) :
  settled n lib (u ++ s) → settled n lib s.
Proof.
  intros H a b -> Hb. apply (H (u ++ a) b); [|done]. by rewrite <-app_assoc.
Qed.

(** A settled document is a fixed point of the substitution. *)
Lemma settled_fixed (n : tname) (lib s : pystr) :
  contains raw_close lib = false → settled n lib s → embed n lib s = s.
Proof.
  intros Hlib. revert s.
  apply (scan_decl_ind n (λ s, settled n lib s → embed n lib s = s)).
  - done.
  - intros c s M IH H. rewrite embed_copy by done. f_equal.
    apply IH. by apply (settled_suffix _ _ [c]).
  - intros pl rest Hpl IH H.
    destruct (H [] (pl ++ raw_close ++ rest)) as [r Hr];
      [done|apply contains_spec; eauto|].
    apply region_unique in Hr as [-> ->]; [|done..].
    rewrite embed_region by done. do 3 f_equal. apply IH.
    apply (settled_suffix _ _ (raw_open n ++ lib ++ raw_close)).
    by rewrite <-!app_assoc.
Qed.


(** The substitution settles its own name. *)
Lemma settled_embed (n : tname) (lib s : pystr) :
  contains (decl_head n) lib = false → settled n lib (embed n lib s).
Proof.
  intros Hlib. revert s.
  apply (scan_decl_ind n (λ s, settled n lib (embed n lib s))).
  - apply settled_nil.
  - intros c s M IH a b E Hb. rewrite embed_copy in E by done.
    destruct a as [|d a].
    + exfalso. rewrite app_nil_l in E.
      destruct (raw_open_shape n) as (tl & Hn & Hc).
      rewrite Hn in E. simpl in E. injection E as -> E.
      destruct (embed_prefix_inv _ _ _ _ _ Hc E) as (s0 & -> & ->).
      apply match_at_None in M as [M|(body & Hbody & M)].
      * change (c_const :: tl ++ s0) with ((c_const :: tl) ++ s0) in M.
        rewrite <-Hn in M. cbn [opener decl_pattern] in M.
        by rewrite starts_with_app in M.
      * cbn [opener closer decl_pattern] in Hbody, M.
        rewrite Hn in Hbody. simpl in Hbody. injection Hbody as Hbody.
        apply app_inv_head in Hbody as <-.
        rewrite embed_no_closer in Hb by done. congruence.
    + simpl in E. injection E as _ E. by apply (IH a b).
  - intros pl rest Hpl IH a b E Hb. rewrite embed_region in E by done.
    symmetry in E.
    destruct (opener_in_declaration _ _ _ _ _ _ Hlib E)
      as [(_ & _ & ->)|(a' & _ & E')]; [eauto|].
    by apply (IH a' b).
Qed.


(** ** Plain templates *)

Lemma inert_spec (s : pystr) :
  inert s = true →
  contains raw_close s = false ∧ ∀ n, contains (decl_head n) s = false.
Proof.
  unfold inert. rewrite !andb_true_iff, !negb_true_iff.
  intros [[[? ?] ?] ?]. split; [done|]. by intros [].
Qed.

Lemma plain_spec (lib : pystr) :
  plain lib = true → (backslash ∉ lib) ∧ inert lib = true.
Proof.
  unfold plain. rewrite andb_true_iff, negb_true_iff.
  intros [? ?]. split; [by apply contains_char_elem|done].
Qed.

(** ** The three substitutions with plain templates *)

Section Plain.
Context (basic_lib timelock_lib weighted_lib : pystr).
Hypothesis plain_basic : plain basic_lib = true.
Hypothesis plain_timelock : plain timelock_lib = true.
Hypothesis plain_weighted : plain weighted_lib = true.




End Plain.

(** ** Documents laid out as declarations *)

Lemma headless_spec (s : pystr) :
  headless s = true → ∀ n, contains (decl_head n) s = false.
Proof.
  unfold headless. rewrite !andb_true_iff, !negb_true_iff.
  intros [[? ?] ?]. by intros [].
Qed.

Lemma embed_headless (n : tname) (lib s : pystr) :
  contains (decl_head n) s = false → embed n lib s = s.
Proof.
  intros H. rewrite <-(app_nil_r s) at 1. rewrite embed_pass.
  - by rewrite embed_nil, app_nil_r.
  - intros a b E. exfalso. rewrite contains_false in H.
    apply (H a ([dquote] ++ b)).
    by rewrite app_nil_r, raw_open_unfold, <-app_assoc in E.
Qed.

(** Text without a declaration head, in front of a declaration, is
    passed over. *)
Lemma embed_gap (n m : tname) (lib gap X : pystr) :
  contains (decl_head n) gap = false →
  embed n lib (gap ++ raw_open m ++ X) = gap ++ embed n lib (raw_open m ++ X).
Proof. apply subx_gap. Qed.

(** Every region of the name is replaced, whatever the replacement
    template: on a well laid document the substitution for [n] puts the
    expansion of the template in the place of each declaration of [n] and
    leaves the rest as it is. *)
Lemma subx_render (n : tname) (t : list titem) (l : layout) (tail : pystr) :
  well_laid l tail = true →
  subx (decl_pattern n) t (render l tail)
  = render_with (λ m payload, if decide (m = n)
                              then expand t (decl_fstring m payload)
                              else decl_fstring m payload) l tail.
Proof.
  unfold well_laid. rewrite andb_true_iff. intros [Hl Htail].
  induction l as [|[[gap m] payload] l IH]; cbn [render render_with].
  - apply subx_no_opener, no_head_no_opener. by apply headless_spec.
  - cbn [forallb] in Hl. apply andb_true_iff in Hl as [Hitem Hl].
    apply andb_true_iff in Hitem as [Hgap Hpl].
    apply inert_spec in Hpl as [Hclose Hhead].
    rewrite subx_gap by by apply headless_spec. f_equal.
    destruct (decide (m = n)) as [->|Hne].
    + rewrite subx_region by done. by rewrite IH.
    + unfold decl_fstring. rewrite <-!app_assoc.
      rewrite !(app_assoc (raw_open m)), !(app_assoc (raw_open m ++ payload)).
      rewrite subx_pass; [by rewrite IH|].
      intros a b E. rewrite <-!app_assoc in E. symmetry in E.
      destruct (opener_in_declaration _ _ _ _ _ _ (Hhead n) E)
        as [(_ & ? & _)|(a' & -> & _)]; [done|].
      exists a'. by rewrite <-!app_assoc.
Qed.

(** One substitution on a well laid document sets the payloads of its
    name and nothing else. *)
Lemma embed_render (n : tname) (lib : pystr) (l : layout) (tail : pystr) :
  well_laid l tail = true →
  embed n lib (render l tail) = render (set_payload n lib l) tail.
Proof.
  intros H. unfold embed. rewrite subx_render by done. clear H.
  induction l as [|[[gap m] payload] l IH]; [done|].
  change (set_payload n lib ((gap, m, payload) :: l))
    with ((gap, m, if decide (m = n) then lib else payload)
            :: set_payload n lib l).
  cbn [render render_with]. rewrite IH.
  destruct (decide (m = n)) as [->|_].
  - rewrite expand_literal. unfold decl_fstring. by rewrite <-!app_assoc.
  - unfold decl_fstring. by rewrite <-!app_assoc.
Qed.

Lemma well_laid_set_payload (n : tname) (lib : pystr) (l : layout) (tail : pystr) :
  inert lib = true → well_laid l tail = true →
  well_laid (set_payload n lib l) tail = true.
Proof.
  unfold well_laid. rewrite !andb_true_iff. intros Hlib [Hl Htail].
  split; [|done]. clear Htail.
  induction l as [|[[gap m] payload] l IH]; [done|].
  cbn [forallb] in Hl.
  apply andb_true_iff in Hl as [Hitem Hl].
  apply andb_true_iff in Hitem as [Hgap Hpl].
  change (set_payload n lib ((gap, m, payload) :: l))
    with ((gap, m, if decide (m = n) then lib else payload)
            :: set_payload n lib l).
  cbn [forallb].
  rewrite Hgap, (IH Hl). by destruct (decide (m = n)); rewrite ?Hlib, ?Hpl.
Qed.



(** ** UTF-8 and text files *)

(** Case analysis on the comparisons of the goal. *)
Ltac ncase :=
  repeat match goal with
    | |- context [?a =? ?b] => destruct (N.eqb_spec a b); try lia
    end;
  repeat match goal with
    | |- context [?a <? ?b] => destruct (N.ltb_spec a b); try lia
    | |- context [?a <=? ?b] => destruct (N.leb_spec a b); try lia
    end.

(** Division by 64, 64^2 and 64^3 as repeated division by 64. *)
Ltac split64_step x q r :=
  pose proof (N.div_mod' x 64); pose proof (N.mod_lt x 64 ltac:(done));
  set (q := x / 64) in *; set (r := x mod 64) in *; clearbody q r.

Ltac split64 c :=
  replace (c / 4096) with (c / 64 / 64) in * by (by rewrite N.Div0.div_div);
  replace (c / 262144) with (c / 64 / 64 / 64) in * by (by rewrite !N.Div0.div_div);
  let q1 := fresh "q" in let r1 := fresh "r" in
  let q2 := fresh "q" in let r2 := fresh "r" in
  let q3 := fresh "q" in let r3 := fresh "r" in
  split64_step c q1 r1; split64_step q1 q2 r2; split64_step q2 q3 r3.

Ltac utf8_char_tac c :=
  eexists; split_and!;
    [done
    |repeat (apply Forall_cons; split; [split64 c; lia|]); apply Forall_nil_2
    |];
  cbn [app utf8_decode]; unfold is_cont, in_range; split64 c;
  ncase; cbn [andb]; do 2 f_equal; lia.

Lemma utf8_char_roundtrip (c : N) (rest : list N) :
  scalar c = true →
  ∃ bs, utf8_encode_char c = Some bs ∧ Forall (λ b, b < 256) bs
        ∧ utf8_decode (bs ++ rest) = cons c <$> utf8_decode rest.
Proof.
  unfold scalar, utf8_encode_char, in_range. intros Hc.
  destruct (N.ltb_spec c 128); [|destruct (N.ltb_spec c 2048);
    [|destruct (N.ltb_spec c 65536); [|destruct (N.ltb_spec c 1114112)]]].
  - eexists; split_and!; [done|apply Forall_cons; split; [lia|apply Forall_nil_2]|].
    cbn [app utf8_decode]. by destruct (N.ltb_spec c 128); [|lia].
  - utf8_char_tac c.
  - destruct (N.leb_spec 55296 c); destruct (N.leb_spec c 57343); cbn [andb].
    + exfalso. revert Hc. ncase; done.
    + utf8_char_tac c.
    + utf8_char_tac c.
    + utf8_char_tac c.
  - utf8_char_tac c.
  - exfalso. revert Hc. ncase; done.
Qed.

Ltac bool_hyps :=
  repeat match goal with
    | H : _ && _ = true |- _ => apply andb_true_iff in H as [? ?]
    | H : context [?a =? ?b] |- _ => destruct (N.eqb_spec a b)
    | H : (_ <=? _) = true |- _ => apply N.leb_le in H
    | H : (_ <? _) = true |- _ => apply N.ltb_lt in H
    | H : (_ <? _) = false |- _ => apply N.ltb_ge in H
    end.

Lemma utf8_decode_scalar (bs : list N) (s : pystr) :
  utf8_decode bs = Some s → Forall (λ c, scalar c = true) s.
Proof.
  remember (length bs) as m eqn:Hm. revert bs s Hm.
  induction (lt_wf m) as [m _ IH]. intros bs s -> H.
  destruct bs as [|b0 r0]; cbn [utf8_decode] in H.
  { injection H as <-. apply Forall_nil_2. }
  unfold is_cont, in_range in H.
  repeat (case_match; try done).
  all: apply fmap_Some in H as (s' & Hs' & ->).
  all: apply Forall_cons; split;
    [|eapply IH; [|done|done]; subst; simpl; lia].
  all: bool_hyps; unfold scalar; ncase; done.
Qed.

Lemma universal_newlines_text (s : pystr) :
  Forall (λ c, scalar c = true) s →
  Forall (λ c, text_char c = true) (universal_newlines s).
Proof.
  remember (length s) as m eqn:Hm. revert s Hm.
  induction (lt_wf m) as [m _ IH]. intros s -> H.
  destruct s as [|c rest]; [apply Forall_nil_2|].
  apply Forall_cons in H as [Hc Hrest]. cbn [universal_newlines].
  destruct (N.eqb_spec c 13) as [->|Hne].
  - apply Forall_cons. split; [done|].
    destruct rest as [|d rest']; [apply Forall_nil_2|].
    destruct (d =? 10).
    + apply Forall_cons in Hrest as [_ Hrest].
      eapply IH; [|done|done]. simpl; lia.
    + eapply IH; [|done|done]. simpl; lia.
  - apply Forall_cons. split.
    + unfold text_char. rewrite Hc. by destruct (N.eqb_spec c 13).
    + eapply IH; [|done|done]. simpl; lia.
Qed.

Lemma universal_newlines_id (s : pystr) :
  Forall (λ c, text_char c = true) s → universal_newlines s = s.
Proof.
  induction 1 as [|c s Hc _ IH]; [done|]. cbn [universal_newlines].
  unfold text_char in Hc. apply andb_true_iff in Hc as [_ Hc].
  destruct (c =? 13); [done|]. by rewrite IH.
Qed.

Lemma utf8_roundtrip (s : pystr) :
  Forall (λ c, scalar c = true) s →
  ∃ ns, utf8_encode s = Some ns ∧ Forall (λ b, b < 256) ns
        ∧ utf8_decode ns = Some s.
Proof.
  induction 1 as [|c s Hc _ (ns & Hns & Hbound & Hdec)].
  - exists []. split_and!; [done|apply Forall_nil_2|done].
  - destruct (utf8_char_roundtrip c ns Hc) as (bs & Hbs & Hb & Hd).
    exists (bs ++ ns). cbn [utf8_encode]. rewrite Hbs, Hns.
    split_and!; [done|by apply Forall_app|]. by rewrite Hd, Hdec.
Qed.

Lemma bytes_of_N (ns : list N) :
  Forall (λ b, b < 256) ns →
  ∃ data, mapM Byte.of_N ns = Some data ∧ Byte.to_N <$> data = ns.
Proof.
  induction 1 as [|n ns Hn _ (data & Hdata & Hback)].
  - by exists [].
  - destruct (Byte.of_N n) as [b|] eqn:E.
    + exists (b :: data). split.
      * apply mapM_Some. constructor; [done|]. by apply mapM_Some.
      * csimpl. by rewrite (Byte.to_of_N _ E), Hback.
    + apply Byte.of_N_None_iff in E. lia.
Qed.


Lemma decode_text_chars (data : list byte) (s : pystr) :
  decode_text data = Some s → Forall (λ c, text_char c = true) s.
Proof.
  unfold decode_text. intros (s' & Hs' & ->)%fmap_Some.
  by apply universal_newlines_text, (utf8_decode_scalar _ _ Hs').
Qed.

Lemma scalar_small (c : N) : c ≤ 255 → scalar c = true.
Proof.
  intros H. unfold scalar. apply orb_true_iff. left. apply N.ltb_lt. lia.
Qed.

Lemma text_char_scalar (s : pystr) :
  Forall (λ c, text_char c = true) s → Forall (λ c, scalar c = true) s.
Proof.
  intros H. eapply Forall_impl; [exact H|]. intros c Hc.
  by apply andb_true_iff in Hc as [? _].
Qed.

(** What was written is read back with its line endings translated. *)
Lemma encode_text_decode (s : pystr) :
  Forall (λ c, scalar c = true) s →
  ∃ data, encode_text s = Some data
          ∧ decode_text data = Some (universal_newlines s).
Proof.
  intros Hs.
  destruct (utf8_roundtrip s Hs) as (ns & Hns & Hb & Hdec).
  destruct (bytes_of_N ns Hb) as (data & Hdata & Hback).
  exists data. unfold encode_text, decode_text.
  rewrite Hns. csimpl. split; [done|].
  by rewrite Hback, Hdec.
Qed.

(** The substitutions keep a text a text. *)
Lemma subx_go_Forall (P : N → Prop) (p : pattern) (r : pystr) (skip : nat) (s : pystr) :
  Forall P r → Forall P s → Forall P (subx_go p (TLit <$> r) skip s).
Proof.
  intros Hr. revert skip. induction s as [|c s IH]; intros skip Hs; [done|].
  apply Forall_cons in Hs as [Hc Hs]. cbn [subx_go].
  destruct skip as [|k]; [|by apply IH].
  destruct (match_at p (c :: s)) as [n|].
  - rewrite expand_literal. apply Forall_app. split; [done|by apply IH].
  - apply Forall_cons. split; [done|by apply IH].
Qed.

Lemma forallb_Forall (f : N → bool) (l : pystr) :
  forallb f l = true → Forall (λ c, f c = true) l.
Proof.
  induction l as [|c l IH]; [done|]. cbn [forallb].
  intros [? ?]%andb_true_iff. apply Forall_cons. split; [done|by apply IH].
Qed.

Lemma embed_text (n : tname) (lib s : pystr) :
  Forall (λ c, text_char c = true) lib →
  Forall (λ c, text_char c = true) s →
  Forall (λ c, text_char c = true) (embed n lib s).
Proof.
  intros Hlib Hs. apply subx_go_Forall; [|done].
  unfold decl_fstring. rewrite !Forall_app. split_and!; [|done|].
  - destruct n; by apply forallb_Forall.
  - by apply forallb_Forall.
Qed.

Lemma embed_all_text (basic_lib timelock_lib weighted_lib s : pystr) :
  Forall (λ c, text_char c = true) basic_lib →
  Forall (λ c, text_char c = true) timelock_lib →
  Forall (λ c, text_char c = true) weighted_lib →
  Forall (λ c, text_char c = true) s →
  Forall (λ c, text_char c = true)
    (embed_all basic_lib timelock_lib weighted_lib s).
Proof. intros. unfold embed_all. by do 3 (apply embed_text; [done|]). Qed.

(** ** Runs of the script *)

Lemma text_of_utf8 (w : World) (path : string) :
  text_in utf8 w path = text_of w path.
Proof. reflexivity. Qed.

Lemma read_text_ok (enc : codec) (w : World) (path : string) (s : pystr) :
  text_in enc w path = Some s →
  read_text enc path w = (Ok s, log (EvOpenRead path) w).
Proof.
  unfold text_in, read_text. destruct (files w !! path) as [data|]; [|done].
  cbn [mbind option_bind]. by intros ->.
Qed.

Lemma read_text_fail (enc : codec) (w : World) (path : string) :
  text_in enc w path = None →
  ∃ e es, read_text enc path w
          = (Raise e, mkWorld (files w) (readonly w) (trace w ++ es))
          ∧ Forall is_read es.
Proof.
  unfold text_in, read_text. destruct (files w !! path) as [data|].
  - cbn [mbind option_bind]. intros ->.
    exists (UnicodeDecodeError path), [EvOpenRead path].
    split; [done|]. by repeat constructor.
  - intros _. exists (FileNotFoundError path), [].
    rewrite app_nil_r. by destruct w.
Qed.

Lemma read_text_unreadable (enc : codec) (w : World) (path : string) :
  text_in enc w path = None →
  read_text enc path w
  = match files w !! path with
    | None => (Raise (FileNotFoundError path), w)
    | Some _ => (Raise (UnicodeDecodeError path), log (EvOpenRead path) w)
    end.
Proof.
  unfold text_in, read_text. destruct (files w !! path) as [data|]; [|done].
  cbn [mbind option_bind]. by intros ->.
Qed.

Lemma text_of_log (e : event) (w : World) (path : string) :
  text_of (log e w) path = text_of w path.
Proof. done. Qed.

Lemma text_in_log (enc : codec) (e : event) (w : World) (path : string) :
  text_in enc (log e w) path = text_in enc w path.
Proof. done. Qed.

(** The four prints of the script: the lines are printed until one cannot
    be encoded. *)
Lemma print_report (enc : codec) (l1 l2 l3 l4 : pystr) (w : World) :
  (print enc l1;; print enc l2;; print enc l3;; print enc l4) w
  = (if decide (printed enc [l1; l2; l3; l4] = [l1; l2; l3; l4])
     then Ok () else Raise (UnicodeEncodeError stdout_name),
     mkWorld (files w) (readonly w)
       (trace w ++ (EvPrint <$> printed enc [l1; l2; l3; l4]))).
Proof.
  unfold mbind, io_mbind, io_bind, print. cbn [printed].
  destruct (encode enc l1).
  2:{ rewrite decide_False by congruence. rewrite fmap_nil, app_nil_r.
      by destruct w. }
  destruct (encode enc l2).
  2:{ rewrite decide_False by congruence. reflexivity. }
  destruct (encode enc l3).
  2:{ rewrite decide_False by congruence. unfold log. cbn [files readonly trace].
      by rewrite <-!app_assoc. }
  destruct (encode enc l4).
  2:{ rewrite decide_False by congruence. unfold log. cbn [files readonly trace].
      by rewrite <-!app_assoc. }
  rewrite decide_True by done. unfold log. cbn [files readonly trace].
  by rewrite <-!app_assoc.
Qed.

(** Once the four files were read, the run in any environment. *)
Lemma run_in_after_reads (env : Env) (w : World)
    (basic_lib timelock_lib weighted_lib cli_content : pystr) :
  text_in (file_encoding env) w basic_path = Some basic_lib →
  text_in (file_encoding env) w timelock_path = Some timelock_lib →
  text_in (file_encoding env) w weighted_path = Some weighted_lib →
  text_in (file_encoding env) w cli_path = Some cli_content →
  regenerate_templates_in env w
  = outcome_in env w basic_lib timelock_lib weighted_lib cli_content.
Proof.
  intros Hb Ht Hw Hc.
  unfold regenerate_templates_in.
  unfold mbind at 1 2 3 4 5 6 7 8. unfold io_mbind, io_bind.
  rewrite (read_text_ok _ _ _ _ Hb).
  rewrite (read_text_ok _ _ _ timelock_lib) by done.
  rewrite (read_text_ok _ _ _ weighted_lib) by done.
  rewrite (read_text_ok _ _ _ cli_content) by done.
  unfold outcome_in, replace_embedded, io_lift, result_bind.
  assert (∀ w0, log (EvOpenRead cli_path) (log (EvOpenRead weighted_path)
            (log (EvOpenRead timelock_path) (log (EvOpenRead basic_path) w0)))
          = after_reads w0) as ->.
  { intros w0. unfold log, after_reads. cbn [files readonly trace].
    f_equal. rewrite <-!app_assoc. reflexivity. }
  destruct (sub_decl Basic basic_lib cli_content) as [c1|e]; [|done].
  destruct (sub_decl Timelock timelock_lib c1) as [c2|e]; [|done].
  destruct (sub_decl Weighted weighted_lib c2) as [c3|e]; [|done].
  unfold write_text. cbn [readonly after_reads].
  destruct (decide (cli_path ∈ readonly w)); [done|].
  destruct (encode (file_encoding env) c3) as [data|].
  - rewrite print_report. unfold report, log, set_file, after_reads.
    cbn [files readonly trace]. f_equal. f_equal.
    + by rewrite insert_insert_eq.
    + rewrite <-!app_assoc. reflexivity.
  - unfold log, set_file, after_reads. cbn [files readonly trace].
    f_equal. f_equal. rewrite <-!app_assoc. reflexivity.
Qed.

(** A file that cannot be read ends the run before anything is written. *)
Lemma run_in_read_failure (env : Env) (w : World) :
  text_in (file_encoding env) w basic_path = None
  ∨ text_in (file_encoding env) w timelock_path = None
  ∨ text_in (file_encoding env) w weighted_path = None
  ∨ text_in (file_encoding env) w cli_path = None →
  ∃ e es, regenerate_templates_in env w
          = (Raise e, mkWorld (files w) (readonly w) (trace w ++ es))
          ∧ Forall is_read es.
Proof.
  intros H. unfold regenerate_templates_in, mbind, io_mbind, io_bind.
  set (enc := file_encoding env) in *.
  destruct (text_in enc w basic_path) as [b|] eqn:Hb.
  2:{ destruct (read_text_fail _ _ _ Hb) as (e & es & -> & Hes). eauto. }
  rewrite (read_text_ok _ _ _ _ Hb).
  destruct (text_in enc w timelock_path) as [t|] eqn:Ht.
  2:{ destruct (read_text_fail enc (log (EvOpenRead basic_path) w) timelock_path)
        as (e & es & -> & Hes); [done|].
      exists e, (EvOpenRead basic_path :: es). cbn [files readonly trace log].
      rewrite <-app_assoc. split; [done|]. by constructor. }
  rewrite (read_text_ok _ _ _ t) by done.
  destruct (text_in enc w weighted_path) as [wl|] eqn:Hw.
  2:{ destruct (read_text_fail enc (log (EvOpenRead timelock_path)
                  (log (EvOpenRead basic_path) w)) weighted_path)
        as (e & es & -> & Hes); [done|].
      exists e, (EvOpenRead basic_path :: EvOpenRead timelock_path :: es).
      cbn [files readonly trace log].
      rewrite <-!app_assoc. split; [done|]. by repeat constructor. }
  rewrite (read_text_ok _ _ _ wl) by done.
  destruct (text_in enc w cli_path) as [c|] eqn:Hc.
  2:{ destruct (read_text_fail enc (log (EvOpenRead weighted_path)
                  (log (EvOpenRead timelock_path)
                  (log (EvOpenRead basic_path) w))) cli_path)
        as (e & es & -> & Hes); [done|].
      exists e, (EvOpenRead basic_path :: EvOpenRead timelock_path
                 :: EvOpenRead weighted_path :: es).
      cbn [files readonly trace log].
      rewrite <-!app_assoc. split; [done|]. by repeat constructor. }
  destruct H as [?|[?|[?|?]]]; done.
Qed.

(** In a UTF-8 locale every line of the report can be printed. *)
Lemma lit_scalar (s : string) : Forall (λ c, scalar c = true) (lit s).
Proof.
  induction s as [|a s IH]; [apply Forall_nil_2|]. cbn [lit].
  apply Forall_cons. split; [|done]. apply scalar_small.
  pose proof (N_ascii_bounded a). lia.
Qed.

Lemma encode_text_scalar (s : pystr) :
  Forall (λ c, scalar c = true) s → ∃ data, encode_text s = Some data.
Proof. intros H. destruct (encode_text_decode s H) as (data & ? & _). eauto. Qed.

Lemma printed_utf8 (basic_lib timelock_lib weighted_lib : pystr) :
  printed utf8 (report basic_lib timelock_lib weighted_lib)
  = report basic_lib timelock_lib weighted_lib.
Proof.
  assert (∀ label lib, ∃ data, encode_text (report_line label lib) = Some data)
    as Hline.
  { intros label lib. apply encode_text_scalar. unfold report_line, py_str_of_nat.
    rewrite !Forall_app. split_and!; apply lit_scalar. }
  unfold report. cbn [printed encode utf8].
  destruct (encode_text_scalar success_line) as [? ->].
  { unfold success_line. apply Forall_cons. split; [done|]. apply lit_scalar. }
  destruct (Hline "Basic"%string basic_lib) as [? ->].
  destruct (Hline "Timelock"%string timelock_lib) as [? ->].
  by destruct (Hline "Weighted"%string weighted_lib) as [? ->].
Qed.

Lemma outcome_in_utf8 (w : World)
    (basic_lib timelock_lib weighted_lib cli_content : pystr) :
  outcome_in utf8_env w basic_lib timelock_lib weighted_lib cli_content
  = after_reading w basic_lib timelock_lib weighted_lib cli_content.
Proof.
  unfold outcome_in, after_reading.
  destruct (replace_embedded _ _ _ _) as [out|e]; [|done].
  destruct (decide (cli_path ∈ readonly w)); [done|].
  cbn [file_encoding stdout_encoding utf8_env]. cbn [encode utf8].
  destruct (encode_text out) as [data|]; [|done].
  rewrite printed_utf8. by rewrite decide_True.
Qed.

Lemma run_after_reads (w : World) (basic_lib timelock_lib weighted_lib cli_content : pystr) :
  text_of w basic_path = Some basic_lib →
  text_of w timelock_path = Some timelock_lib →
  text_of w weighted_path = Some weighted_lib →
  text_of w cli_path = Some cli_content →
  regenerate_templates w
  = after_reading w basic_lib timelock_lib weighted_lib cli_content.
Proof.
  intros Hb Ht Hw Hc. unfold regenerate_templates.
  rewrite <-outcome_in_utf8. by apply run_in_after_reads.
Qed.

Lemma run_read_failure (w : World) :
  text_of w basic_path = None ∨ text_of w timelock_path = None
  ∨ text_of w weighted_path = None ∨ text_of w cli_path = None →
  ∃ e es, regenerate_templates w
          = (Raise e, mkWorld (files w) (readonly w) (trace w ++ es))
          ∧ Forall is_read es.
Proof. apply (run_in_read_failure utf8_env). Qed.

Lemma text_of_chars (w : World) (path : string) (s : pystr) :
  text_of w path = Some s → Forall (λ c, text_char c = true) s.
Proof.
  unfold text_of. intros (data & _ & Hs)%bind_Some.
  by apply (decode_text_chars data).
Qed.


(** A print that follows events without a print comes after all of them. *)
Lemma print_after (l1 l2 pre post : list event) (line : pystr) :
  Forall no_print l1 → l1 ++ l2 = pre ++ EvPrint line :: post →
  ∃ pre', pre = l1 ++ pre'.
Proof.
  intros H. revert pre. induction H as [|e l1 He _ IH]; intros pre E.
  - by exists pre.
  - destruct pre as [|e' pre]; simpl in E.
    + injection E as -> _. done.
    + injection E as -> E. destruct (IH pre E) as [pre' ->]. by exists pre'.
Qed.

Lemma reads_no_print (es : list event) : Forall is_read es → Forall no_print es.
Proof. intros H. eapply Forall_impl; [exact H|]. by intros []. Qed.


(** ** Determinism *)








(** ** Replacement templates with backslashes *)

Lemma tcons_Ok (i : titem) (r : result (list titem)) (t : list titem) :
  tcons i r = Ok t ↔ ∃ t', r = Ok t' ∧ t = i :: t'.
Proof.
  destruct r as [t'|e]; cbn [tcons result_bind]; split.
  - intros [= <-]. by exists t'.
  - by intros (? & [= <-] & ->).
  - done.
  - by intros (? & ? & _).
Qed.

Lemma parse_template_go_prefix (pre rest : pystr) :
  backslash ∉ pre →
  parse_template_go None (pre ++ rest)
  = result_bind (parse_template_go None rest) (λ t, Ok ((TLit <$> pre) ++ t)).
Proof.
  induction pre as [|c pre IH]; intros H.
  - rewrite app_nil_l. by destruct (parse_template_go None rest).
  - apply not_elem_of_cons in H as [Hc H].
    rewrite <-app_comm_cons. cbn [parse_template_go].
    destruct (N.eqb_spec c backslash) as [->|_]; [done|].
    rewrite IH by done. by destruct (parse_template_go None rest).
Qed.

Lemma octdigit_val (d : N) : is_octdigit d = true → digit_val d ≤ 7.
Proof.
  unfold is_octdigit, digit_val.
  intros [?%N.leb_le ?%N.leb_le]%andb_true_iff. lia.
Qed.

Lemma escape_of_le (e x : N) : escape_of e = Some x → x ≤ 92.
Proof. unfold escape_of. repeat case_match; intros [= <-]; lia. Qed.

Lemma land_255_le (a : N) : N.land a 255 ≤ 255.
Proof.
  change 255 with (N.ones 8). rewrite N.land_ones.
  pose proof (N.mod_upper_bound a (2 ^ 8) ltac:(done)).
  change (N.ones 8) with (2 ^ 8 - 1). lia.
Qed.

(** Induction on the length of the string that is left. *)
Lemma parse_template_go_items (P : N → Prop) (name : option pystr)
    (s : pystr) (t : list titem) :
  (∀ c, c ≤ 255 → P c) → Forall P s →
  parse_template_go name s = Ok t → Forall (titem_chars P) t.
Proof.
  intros HP. remember (length s) as m eqn:Hm. revert name s t Hm.
  induction (lt_wf m) as [m _ IH]. intros name s t -> Hs H.
  assert (∀ name' s' t', (length s' < length s)%nat → Forall P s' →
            parse_template_go name' s' = Ok t' → Forall (titem_chars P) t') as IH'.
  { intros name' s' t' Hlt. by apply (IH (length s')). }
  clear IH.
  destruct name as [acc|]; destruct s as [|c rest];
    cbn [parse_template_go] in H; try congruence.
  2:{ injection H as <-. apply Forall_nil_2. }
  all: repeat case_match; try congruence; subst.
  all: repeat match goal with
         | H : tcons _ _ = Ok _ |- _ => apply tcons_Ok in H as (? & H & ->)
         end.
  all: repeat match goal with
         | |- Forall _ (_ :: _) => apply Forall_cons; split
         end.
  all: try match goal with
         | H : parse_template_go ?nm ?s' = Ok ?t' |- Forall _ ?t' =>
             apply (IH' nm s' t');
               [simpl; lia
               |by repeat first [exact Hs | apply Forall_inv_tail in Hs]
               |exact H]
         end.
  all: cbn [titem_chars]; try done.
  all: try (by inversion Hs as [|? ? ? Hs']; first [assumption | by inversion Hs']).
  all: apply HP; try lia.
  all: try (by apply land_255_le).
  all: try (by eapply N.le_trans; [by eapply escape_of_le|]).
  all: repeat match goal with
         | H : is_octdigit _ = true |- _ => apply octdigit_val in H
         | H : _ && _ = true |- _ => apply andb_true_iff in H as [? ?]
         | H : (_ <? _) = false |- _ => apply N.ltb_ge in H
         end; try lia.
Qed.

Lemma parse_template_go_length (name : option pystr) (s : pystr)
    (t : list titem) :
  parse_template_go name s = Ok t → (length t ≤ length s)%nat.
Proof.
  remember (length s) as m eqn:Hm. revert name s t Hm.
  induction (lt_wf m) as [m _ IH]. intros name s t -> H.
  assert (∀ name' s' t', (length s' < length s)%nat →
            parse_template_go name' s' = Ok t' → (length t' ≤ length s')%nat) as IH'.
  { intros name' s' t' Hlt. by apply (IH (length s')). }
  clear IH.
  destruct name as [acc|]; destruct s as [|c rest];
    cbn [parse_template_go] in H; try congruence.
  2:{ by injection H as <-. }
  all: repeat case_match; try congruence; subst.
  all: repeat match goal with
         | H : tcons _ _ = Ok _ |- _ => apply tcons_Ok in H as (? & H & ->)
         end.
  all: match goal with
       | H : parse_template_go ?nm ?s' = Ok ?t' |- _ =>
           apply (IH' nm s' t') in H; [simpl in *; lia|simpl; lia]
       end.
Qed.

(** A group name in progress ends in a reference to group 0 or raises. *)
Lemma parse_template_go_name (a : pystr) (s : pystr) (t : list titem) :
  parse_template_go (Some a) s = Ok t → ∃ t', t = TGroup0 :: t'.
Proof.
  revert a t. induction s as [|c rest IH]; intros a t H;
    cbn [parse_template_go] in H; [done|].
  repeat case_match; try done.
  - apply tcons_Ok in H as (t' & _ & ->). by exists t'.
  - by eapply IH.
Qed.

Lemma parse_template_taken_literally (s : pystr) :
  taken_literally s = true → parse_template s = Ok (TLit <$> s).
Proof.
  unfold parse_template.
  remember (length s) as m eqn:Hm. revert s Hm.
  induction (lt_wf m) as [m _ IH]. intros s -> H.
  destruct s as [|c rest]; [done|].
  cbn [parse_template_go taken_literally] in *.
  destruct (c =? backslash) eqn:Ec.
  - destruct rest as [|e rest1]; [done|].
    apply andb_true_iff in H as [H Hrest].
    apply andb_true_iff in H as [H Hb].
    apply andb_true_iff in H as [Hl Hd].
    apply negb_true_iff in Hl, Hd, Hb.
    assert ((e =? 103) = false) as ->.
    { apply N.eqb_neq. intros ->. done. }
    assert ((e =? 48) = false) as ->.
    { apply N.eqb_neq. intros ->. done. }
    rewrite Hd, Hl.
    assert (escape_of e = None) as ->.
    { unfold escape_of. fold backslash. rewrite Hb.
      repeat case_match; try done;
        match goal with H : (e =? _) = true |- _ => apply N.eqb_eq in H; subst e end;
        done. }
    rewrite (IH (length rest1)) by (simpl; lia || done). done.
  - rewrite (IH (length rest)) by (simpl; lia || done). done.
Qed.

Lemma parse_template_literal_inv (s : pystr) :
  parse_template s = Ok (TLit <$> s) → taken_literally s = true.
Proof.
  unfold parse_template.
  remember (length s) as m eqn:Hm. revert s Hm.
  induction (lt_wf m) as [m _ IH]. intros s -> H.
  assert (∀ s', (length s' < length s)%nat →
            parse_template_go None s' = Ok (TLit <$> s') →
            taken_literally s' = true) as IH'.
  { intros s' Hlt. by apply (IH (length s')). }
  clear IH.
  destruct s as [|c rest]; [done|].
  change (TLit <$> c :: rest) with (TLit c :: (TLit <$> rest)) in H.
  cbn [parse_template_go taken_literally] in *.
  destruct (c =? backslash) eqn:Ec.
  2:{ apply tcons_Ok in H as (t' & H & [= <-]). apply IH'; [simpl; lia|done]. }
  apply N.eqb_eq in Ec as ->.
  destruct rest as [|e rest1]; [done|].
  change (TLit <$> e :: rest1) with (TLit e :: (TLit <$> rest1)) in H.
  repeat case_match; try done; subst.
  all: repeat match goal with
         | H : tcons _ _ = Ok _ |- _ => apply tcons_Ok in H as (? & H & E)
         end.
  all: try (by apply parse_template_go_name in H as [? [=]]).
  all: try (injection E as _ <-; apply parse_template_go_length in H;
            simpl in H; rewrite ?length_fmap in H; simpl in H; lia).
  injection E as <-. apply tcons_Ok in H as (t' & H & [= <-]).
  rewrite (IH' rest1) by (simpl; lia || done).
  assert ((e =? backslash) = false) as ->; [|done].
  apply N.eqb_neq. intros ->. done.
Qed.

Lemma sub_decl_prefix (n : tname) (pre rest : pystr) :
  backslash ∉ pre →
  parse_template (raw_open n ++ pre ++ rest)
  = result_bind (parse_template rest)
      (λ t, Ok ((TLit <$> raw_open n ++ pre) ++ t)).
Proof.
  intros Hpre. unfold parse_template.
  rewrite app_assoc, parse_template_go_prefix; [done|].
  rewrite elem_of_app. intros [?|?]; [|done].
  by apply (raw_open_no_backslash n).
Qed.

Lemma parse_template_tail (post : pystr) :
  backslash ∉ post →
  parse_template (post ++ raw_close) = Ok (TLit <$> post ++ raw_close).
Proof.
  intros H. apply parse_template_literal.
  rewrite elem_of_app. intros [?|?]; [done|].
  by apply raw_close_no_backslash.
Qed.

(** A template whose first backslash is followed by an ASCII letter that
    is neither an escape nor g does not compile. *)
Lemma sub_decl_bad_escape (n : tname) (pre post : pystr) (c : N) (s : pystr) :
  backslash ∉ pre → is_ascii_letter c = true → escape_of c = None → c ≠ 103 →
  sub_decl n (pre ++ backslash :: c :: post) s = Raise ReError.
Proof.
  intros Hpre Hl He Hg. unfold sub_decl, re_sub, parse_template, decl_fstring.
  rewrite <-app_assoc, app_assoc, parse_template_go_prefix.
  2:{ rewrite elem_of_app. intros [?|?]; [|done].
      by apply (raw_open_no_backslash n). }
  rewrite <-app_comm_cons. cbn [parse_template_go].
  rewrite N.eqb_refl.
  rewrite <-app_comm_cons.
  assert ((c =? 103) = false) as -> by by apply N.eqb_neq.
  assert ((c =? 48) = false) as ->.
  { apply N.eqb_neq. intros ->. done. }
  assert (is_digit c = false) as ->.
  { unfold is_ascii_letter, is_digit in *.
    destruct (48 <=? c) eqn:E1; [|done]. destruct (c <=? 57) eqn:E2; [|done].
    apply N.leb_le in E1, E2.
    apply orb_true_iff in Hl as [[?%N.leb_le ?%N.leb_le]%andb_true_iff
                                 |[?%N.leb_le ?%N.leb_le]%andb_true_iff]; lia. }
  by rewrite He, Hl.
Qed.

(** The reference to group 0. *)
Lemma parse_template_group0 (rest : pystr) :
  parse_template_go None (lit "\g<0>" ++ rest)
  = tcons TGroup0 (parse_template_go None rest).
Proof. reflexivity. Qed.

Lemma expand_app (t1 t2 : list titem) (m : pystr) :
  expand (t1 ++ t2) m = expand t1 m ++ expand t2 m.
Proof.
  induction t1 as [|[c|] t1 IH]; [done| |]; cbn [expand app].
  - by rewrite IH.
  - by rewrite <-app_assoc, IH.
Qed.

Lemma replace_embedded_literal (basic_lib timelock_lib weighted_lib s : pystr) :
  backslash ∉ basic_lib → backslash ∉ timelock_lib → backslash ∉ weighted_lib →
  replace_embedded basic_lib timelock_lib weighted_lib s
  = Ok (embed_all basic_lib timelock_lib weighted_lib s).
Proof.
  intros Hb Ht Hw. unfold replace_embedded, embed_all.
  rewrite (sub_decl_literal Basic) by done. cbn [result_bind].
  rewrite (sub_decl_literal Timelock) by done. cbn [result_bind].
  by rewrite (sub_decl_literal Weighted).
Qed.

(** ** The characters of the substituted text *)

Lemma expand_items (P : N → Prop) (t : list titem) (m : pystr) :
  Forall (titem_chars P) t → Forall P m → Forall P (expand t m).
Proof.
  intros Ht Hm. induction Ht as [|[c|] t Hi _ IH]; cbn [expand].
  - apply Forall_nil_2.
  - apply Forall_cons. by split.
  - apply Forall_app. by split.
Qed.

Lemma subx_go_items (P : N → Prop) (p : pattern) (t : list titem) (skip : nat)
    (s : pystr) :
  Forall (titem_chars P) t → Forall P s → Forall P (subx_go p t skip s).
Proof.
  intros Ht. revert skip. induction s as [|c s IH]; intros skip Hs; [done|].
  pose proof Hs as Hcs. apply Forall_cons in Hs as [Hc Hs]. cbn [subx_go].
  destruct skip as [|k]; [|by apply IH].
  destruct (match_at p (c :: s)) as [n|].
  - apply Forall_app. split; [|by apply IH].
    apply expand_items; [done|]. by apply Forall_take.
  - apply Forall_cons. split; [done|by apply IH].
Qed.

Lemma decl_fstring_chars (P : N → Prop) (n : tname) (lib : pystr) :
  (∀ c, c ≤ 255 → P c) → Forall P lib → Forall P (decl_fstring n lib).
Proof.
  intros HP Hlib.
  assert (∀ l, forallb (λ c, c <=? 255) l = true → Forall P l) as Hsmall.
  { intros l Hl. eapply Forall_impl; [by apply forallb_Forall|].
    intros c Hc. cbn beta in Hc. by apply HP, N.leb_le. }
  unfold decl_fstring. rewrite !Forall_app. split_and!; [|done|].
  - destruct n; by apply Hsmall.
  - by apply Hsmall.
Qed.

Lemma sub_decl_chars (P : N → Prop) (n : tname) (lib s out : pystr) :
  (∀ c, c ≤ 255 → P c) → Forall P lib → Forall P s →
  sub_decl n lib s = Ok out → Forall P out.
Proof.
  intros HP Hlib Hs. unfold sub_decl, re_sub.
  destruct (parse_template _) as [t|e] eqn:E; [|done].
  intros [= <-]. apply subx_go_items; [|done].
  eapply parse_template_go_items; [done| |exact E].
  by apply decl_fstring_chars.
Qed.

Lemma replace_embedded_scalar (basic_lib timelock_lib weighted_lib s out : pystr) :
  Forall (λ c, scalar c = true) basic_lib →
  Forall (λ c, scalar c = true) timelock_lib →
  Forall (λ c, scalar c = true) weighted_lib →
  Forall (λ c, scalar c = true) s →
  replace_embedded basic_lib timelock_lib weighted_lib s = Ok out →
  Forall (λ c, scalar c = true) out.
Proof.
  intros Hb Ht Hw Hs. unfold replace_embedded.
  destruct (sub_decl Basic basic_lib s) as [c1|] eqn:E1; [|done].
  cbn [result_bind].
  destruct (sub_decl Timelock timelock_lib c1) as [c2|] eqn:E2; [|done].
  cbn [result_bind]. intros E3.
  pose proof scalar_small as Hsm.
  apply (sub_decl_chars _ Weighted weighted_lib c2 out Hsm Hw); [|exact E3].
  apply (sub_decl_chars _ Timelock timelock_lib c1 c2 Hsm Ht); [|exact E2].
  by apply (sub_decl_chars _ Basic basic_lib s c1 Hsm Hb).
Qed.

(** ** Every run, case by case *)

(** The outcome once the four files were read: the text to write can
    always be encoded. *)
Lemma after_reading_cases (w : World)
    (basic_lib timelock_lib weighted_lib cli_content : pystr) :
  Forall (λ c, scalar c = true) basic_lib →
  Forall (λ c, scalar c = true) timelock_lib →
  Forall (λ c, scalar c = true) weighted_lib →
  Forall (λ c, scalar c = true) cli_content →
  match replace_embedded basic_lib timelock_lib weighted_lib cli_content with
  | Raise e =>
      after_reading w basic_lib timelock_lib weighted_lib cli_content
      = (Raise e, after_reads w)
  | Ok out =>
      if decide (cli_path ∈ readonly w)
      then after_reading w basic_lib timelock_lib weighted_lib cli_content
           = (Raise (PermissionError cli_path), after_reads w)
      else ∃ data,
             encode_text out = Some data
             ∧ decode_text data = Some (universal_newlines out)
             ∧ after_reading w basic_lib timelock_lib weighted_lib cli_content
               = (Ok (), final_world w basic_lib timelock_lib weighted_lib data)
  end.
Proof.
  intros Hb Ht Hw Hc. unfold after_reading.
  destruct (replace_embedded _ _ _ _) as [out|e] eqn:E.
  - destruct (decide (cli_path ∈ readonly w)); [done|].
    destruct (encode_text_decode out) as (data & Henc & Hdec).
    { exact (replace_embedded_scalar _ _ _ _ _ Hb Ht Hw Hc E). }
    exists data. by rewrite Henc.
  - done.
Qed.

(** Every run, case by case. *)
Lemma run_cases (w : World) :
  (∃ e es,
     regenerate_templates w
     = (Raise e, mkWorld (files w) (readonly w) (trace w ++ es))
     ∧ Forall is_read es)
  ∨ (∃ basic_lib timelock_lib weighted_lib cli_content out data,
       text_of w basic_path = Some basic_lib
       ∧ text_of w timelock_path = Some timelock_lib
       ∧ text_of w weighted_path = Some weighted_lib
       ∧ text_of w cli_path = Some cli_content
       ∧ replace_embedded basic_lib timelock_lib weighted_lib cli_content = Ok out
       ∧ (cli_path ∉ readonly w)
       ∧ encode_text out = Some data
       ∧ decode_text data = Some (universal_newlines out)
       ∧ regenerate_templates w
         = (Ok (), final_world w basic_lib timelock_lib weighted_lib data)).
Proof.
  destruct (text_of w basic_path) as [b|] eqn:Hb;
    [|left; apply run_read_failure; auto].
  destruct (text_of w timelock_path) as [t|] eqn:Ht;
    [|left; apply run_read_failure; auto].
  destruct (text_of w weighted_path) as [wl|] eqn:Hw;
    [|left; apply run_read_failure; auto].
  destruct (text_of w cli_path) as [c|] eqn:Hc;
    [|left; apply run_read_failure; auto].
  rewrite (run_after_reads w b t wl c) by done.
  assert (Forall is_read the_reads) as Hreads by by repeat constructor.
  pose proof (after_reading_cases w b t wl c
                (text_char_scalar _ (text_of_chars _ _ _ Hb))
                (text_char_scalar _ (text_of_chars _ _ _ Ht))
                (text_char_scalar _ (text_of_chars _ _ _ Hw))
                (text_char_scalar _ (text_of_chars _ _ _ Hc))) as H.
  destruct (replace_embedded b t wl c) as [out|e] eqn:E.
  - destruct (decide (cli_path ∈ readonly w)) as [Hro|Hro].
    + left. rewrite H. by exists (PermissionError cli_path), the_reads.
    + right. destruct H as (data & Henc & Hdec & ->).
      by exists b, t, wl, c, out, data.
  - left. rewrite H. by exists e, the_reads.
Qed.

(** The lines that are printed, and the first one that is not. *)
Lemma printed_split (enc : codec) (lines : list pystr) :
  printed enc lines = lines
  ∨ ∃ line rest, lines = printed enc lines ++ line :: rest
                 ∧ encode enc line = None.
Proof.
  induction lines as [|l lines IH]; [by left|]. cbn [printed].
  destruct (encode enc l) eqn:E.
  - destruct IH as [->|(line & rest & IH & Hline)]; [by left|].
    right. exists line, rest. by rewrite <-app_comm_cons, <-IH.
  - right. by exists l, lines.
Qed.

(** Every run in any environment, case by case: a read fails, a template
    does not compile or the target cannot be opened; the text cannot be
    encoded for the file; the file is written and the report printed as
    far as it can be. *)
Lemma run_in_cases (env : Env) (w : World) :
  (∃ e es,
     regenerate_templates_in env w
     = (Raise e, mkWorld (files w) (readonly w) (trace w ++ es))
     ∧ Forall is_read es)
  ∨ (∃ basic_lib timelock_lib weighted_lib cli_content out,
       text_in (file_encoding env) w basic_path = Some basic_lib
       ∧ text_in (file_encoding env) w timelock_path = Some timelock_lib
       ∧ text_in (file_encoding env) w weighted_path = Some weighted_lib
       ∧ text_in (file_encoding env) w cli_path = Some cli_content
       ∧ replace_embedded basic_lib timelock_lib weighted_lib cli_content = Ok out
       ∧ encode (file_encoding env) out = None
       ∧ regenerate_templates_in env w
         = (Raise (UnicodeEncodeError cli_path),
            mkWorld (<[cli_path := []]> (files w)) (readonly w)
              (trace w ++ the_reads ++ [EvOpenWrite cli_path])))
  ∨ (∃ basic_lib timelock_lib weighted_lib data,
       computed env w basic_lib timelock_lib weighted_lib data
       ∧ regenerate_templates_in env w
         = (if decide (printed (stdout_encoding env)
                         (report basic_lib timelock_lib weighted_lib)
                       = report basic_lib timelock_lib weighted_lib)
            then Ok () else Raise (UnicodeEncodeError stdout_name),
            mkWorld (<[cli_path := data]> (files w)) (readonly w)
              (trace w ++ the_reads
                 ++ [EvOpenWrite cli_path; EvWrite cli_path data]
                 ++ (EvPrint <$> printed (stdout_encoding env)
                                   (report basic_lib timelock_lib weighted_lib))))).
Proof.
  set (enc := file_encoding env).
  destruct (text_in enc w basic_path) as [b|] eqn:Hb;
    [|left; apply run_in_read_failure; auto].
  destruct (text_in enc w timelock_path) as [t|] eqn:Ht;
    [|left; apply run_in_read_failure; auto].
  destruct (text_in enc w weighted_path) as [wl|] eqn:Hw;
    [|left; apply run_in_read_failure; auto].
  destruct (text_in enc w cli_path) as [c|] eqn:Hc;
    [|left; apply run_in_read_failure; auto].
  rewrite (run_in_after_reads env w b t wl c) by done.
  assert (Forall is_read the_reads) as Hreads by by repeat constructor.
  unfold outcome_in.
  destruct (replace_embedded b t wl c) as [out|e] eqn:E.
  2:{ left. by exists e, the_reads. }
  destruct (decide (cli_path ∈ readonly w)) as [Hro|Hro].
  { left. by exists (PermissionError cli_path), the_reads. }
  fold enc. destruct (encode enc out) as [data|] eqn:Henc.
  - right. right. exists b, t, wl, data. split; [|done].
    by exists c, out.
  - right. left. by exists b, t, wl, c, out.
Qed.

(** ** The regions of a layout *)

Lemma payloads_no_opener (n : tname) (s : pystr) :
  contains (raw_open n) s = false → payloads n s = [].
Proof.
  induction s as [|c s IH]; [done|]. intros H.
  rewrite payloads_copy.
  - apply IH. by apply contains_cons_false in H.
  - apply match_at_None. left. cbn [contains] in H.
    by apply orb_false_iff in H as [? _].
Qed.

Lemma payloads_pass (n : tname) (u X : pystr) :
  (∀ a b, u ++ X = a ++ raw_open n ++ b → ∃ a', a = u ++ a') →
  payloads n (u ++ X) = payloads n X.
Proof.
  induction u as [|c u IH]; intros H; [done|]. simpl.
  rewrite payloads_copy.
  - apply IH. intros a b E.
    destruct (H (c :: a) b) as [a' Ha]; [simpl; by rewrite E|].
    injection Ha as ->. by exists a'.
  - destruct (match_at (decl_pattern n) (c :: u ++ X)) as [k|] eqn:M; [|done].
    apply match_at_decl in M as (pl & rest & Hs & _).
    by destruct (H [] (pl ++ raw_close ++ rest) Hs) as [a' ?].
Qed.

Lemma payloads_gap (n m : tname) (gap X : pystr) :
  contains (decl_head n) gap = false →
  payloads n (gap ++ raw_open m ++ X) = payloads n (raw_open m ++ X).
Proof.
  intros H. apply payloads_pass. intros a b E.
  destruct (decl_head_shape n) as (tl & Hhd & Hc & _).
  destruct (raw_open_shape m) as (tlm & Hm & _).
  rewrite Hm, raw_open_unfold, Hhd, <-(app_assoc _ [dquote] b) in E.
  rewrite Hhd in H. simpl in E.
  destruct (occ_not_across _ _ _ _ _ _ _ E H Hc) as (a' & -> & _).
  by exists a'.
Qed.

Lemma set_payload_comm (n m : tname) (libn libm : pystr) (l : layout) :
  n ≠ m →
  set_payload n libn (set_payload m libm l)
  = set_payload m libm (set_payload n libn l).
Proof.
  intros Hne. unfold set_payload. rewrite <-!list_fmap_compose.
  apply list_fmap_ext. intros _ [[gap k] payload] _. cbn.
  by repeat case_decide; subst.
Qed.

(** ** The size of a text and of its file *)

Lemma utf8_decode_length (bs : list N) (s : pystr) :
  utf8_decode bs = Some s → (length s ≤ length bs)%nat.
Proof.
  remember (length bs) as m eqn:Hm. revert bs s Hm.
  induction (lt_wf m) as [m _ IH]. intros bs s -> H.
  assert (∀ bs' s', (length bs' < length bs)%nat →
            utf8_decode bs' = Some s' → (length s' ≤ length bs')%nat) as IH'.
  { intros bs' s' Hlt. by apply (IH (length bs')). }
  clear IH. destruct bs as [|b0 r0]; cbn [utf8_decode] in H.
  { by injection H as <-. }
  repeat case_match; try done; subst;
    apply fmap_Some in H as (s' & H & ->);
    apply IH' in H; simpl in *; lia.
Qed.

Lemma universal_newlines_length (s : pystr) :
  (length (universal_newlines s) ≤ length s)%nat.
Proof.
  remember (length s) as m eqn:Hm. revert s Hm.
  induction (lt_wf m) as [m _ IH]. intros s ->.
  assert (∀ s', (length s' < length s)%nat →
            (length (universal_newlines s') ≤ length s')%nat) as IH'.
  { intros s' Hlt. by apply (IH (length s')). }
  clear IH. destruct s as [|c rest]; [done|]. cbn [universal_newlines].
  destruct (c =? 13).
  - destruct rest as [|d rest']; [simpl; lia|].
    destruct (d =? 10).
    + pose proof (IH' rest' ltac:(simpl; lia)). simpl. lia.
    + pose proof (IH' (d :: rest') ltac:(simpl; lia)). simpl in *. lia.
  - pose proof (IH' rest ltac:(simpl; lia)). simpl. lia.
Qed.

Lemma utf8_decode_ascii (bs : list N) :
  Forall (λ b, b < 128) bs → utf8_decode bs = Some bs.
Proof.
  induction 1 as [|b bs Hb _ IH]; [done|]. cbn [utf8_decode].
  apply N.ltb_lt in Hb. by rewrite Hb, IH.
Qed.

Lemma universal_newlines_no_cr (s : pystr) :
  Forall (λ c, c ≠ 13) s → universal_newlines s = s.
Proof.
  induction 1 as [|c s Hc _ IH]; [done|]. cbn [universal_newlines].
  apply N.eqb_neq in Hc. by rewrite Hc, IH.
Qed.

(** A text read from a UTF-8 file is no longer than the file. *)
Lemma decode_text_length (data : list byte) (lib : pystr) :
  decode_text data = Some lib →
  (length lib ≤ length data)%nat
  ∧ (ascii_file data → length lib = length data).
Proof.
  unfold decode_text. intros (s & Hs & ->)%fmap_Some. split.
  - etrans; [apply universal_newlines_length|].
    apply utf8_decode_length in Hs. by rewrite length_fmap in Hs.
  - intros Hascii. rewrite utf8_decode_ascii in Hs.
    2:{ apply Forall_fmap. eapply Forall_impl; [exact Hascii|].
        by intros x [? _]. }
    injection Hs as <-. rewrite universal_newlines_no_cr.
    2:{ apply Forall_fmap. eapply Forall_impl; [exact Hascii|].
        by intros x [_ ?]. }
    by rewrite length_fmap.
Qed.

(** ** Templates that are taken literally *)


(** The three substitutions when each replacement is taken literally and
    each template is inert. *)
Section Literal.
Context (basic_lib timelock_lib weighted_lib : pystr).
Hypothesis literal : ∀ n,
  taken_literally
    (decl_fstring n (lib_of basic_lib timelock_lib weighted_lib n)) = true.
Hypothesis inert_libs : ∀ n,
  inert (lib_of basic_lib timelock_lib weighted_lib n) = true.




End Literal.

Lemma digit_not_escape (e : N) :
  is_digit e = true → (e =? 103) = false ∧ escape_of e = None.
Proof.
  unfold is_digit. intros [?%N.leb_le ?%N.leb_le]%andb_true_iff. split.
  - apply N.eqb_neq. lia.
  - unfold escape_of.
    repeat case_match; try done;
      match goal with H : (e =? _) = true |- _ => apply N.eqb_eq in H; lia end.
Qed.

(** * The claims *)







(** C3.  When one of the three template files or the target file cannot
    be read, the run ends with an exception; until then it has only opened
    files for reading (the target was not opened for writing, nothing was
    written or printed), and every file, the target among them, has the
    bytes it had. *)
Theorem C3_read_failure_leaves_target_untouched (w : World) :
  text_of w basic_path = None ∨ text_of w timelock_path = None
  ∨ text_of w weighted_path = None ∨ text_of w cli_path = None →
  ∃ e w' es,
    regenerate_templates w = (Raise e, w')
    ∧ files w' = files w
    ∧ trace w' = trace w ++ es
    ∧ Forall is_read es.
Proof.
  intros H. destruct (run_read_failure w H) as (e & es & Hrun & Hes).
  by eexists _, _, _.
Qed.

Lemma C3_witness :
  ∃ e w' es,
    regenerate_templates world_without_templates = (Raise e, w')
    ∧ files w' = files world_without_templates
    ∧ trace w' = trace world_without_templates ++ es
    ∧ Forall is_read es.
Proof.
  apply (C3_read_failure_leaves_target_untouched world_without_templates).
  left. vm_compute. reflexivity.
Defined.

(** C4 fails on the code: [len] of a [str] counts code points.  A basic
    template that is the single letter e-acute is two bytes long, in the
    file and as a text, and the report says [1 bytes]. *)
Theorem C4_report_counts_code_points :
  let w := mkWorld (<[basic_path := [xc3; xa9]%byte]>
                      (files (world_with [] [] [] []))) ∅ [] in
  text_of w basic_path = Some [233]
  ∧ byte_length [233] = Some 2%nat
  ∧ length <$> (files w !! basic_path) = Some 2%nat
  ∧ fst (regenerate_templates w) = Ok ()
  ∧ trace (snd (regenerate_templates w)) !! 7%nat
    = Some (EvPrint (lit "  Basic template: 1 bytes")).
Proof. vm_compute. by repeat split. Qed.

(** C5 fails on the code.  The target below has no region of the basic
    name and a region of the timelock name; the basic template is a
    backslash followed by the letter d.  [re.sub] compiles its replacement
    before it looks for a match and raises [bad escape]: the run ends
    there, the timelock and weighted substitutions are not made and the
    target keeps its old text. *)
Theorem C5_unmatched_name_with_bad_escape_aborts :
  let cli_content := decl_fstring Timelock (lit "OLD") in
  let w := world_with (lit "\d") (lit "fn locked() {}") [] cli_content in
  contains (raw_open Basic) cli_content = false
  ∧ sub_decl Basic (lit "\d") cli_content = Raise ReError
  ∧ sub_decl Timelock (lit "fn locked() {}") cli_content
    = Ok (decl_fstring Timelock (lit "fn locked() {}"))
  ∧ fst (regenerate_templates w) = Raise ReError
  ∧ text_of (snd (regenerate_templates w)) cli_path = Some cli_content.
Proof. vm_compute. by repeat split. Qed.

(** C6.  In a run that succeeds the text written is the result of the
    basic, then the timelock, then the weighted substitution, each made on
    the result of the previous one, starting from the text read from the
    target; it is written once, after the four reads and before the
    report, and replaces the bytes of the target file. *)
Theorem C6_three_substitutions_in_order_then_one_write (w w' : World) :
  regenerate_templates w = (Ok (), w') →
  ∃ basic_lib timelock_lib weighted_lib c0 c1 c2 c3 data es,
    text_of w basic_path = Some basic_lib
    ∧ text_of w timelock_path = Some timelock_lib
    ∧ text_of w weighted_path = Some weighted_lib
    ∧ text_of w cli_path = Some c0
    ∧ sub_decl Basic basic_lib c0 = Ok c1
    ∧ sub_decl Timelock timelock_lib c1 = Ok c2
    ∧ sub_decl Weighted weighted_lib c2 = Ok c3
    ∧ encode_text c3 = Some data
    ∧ files w' = <[cli_path := data]> (files w)
    ∧ trace w' = trace w ++ es
    ∧ es = the_reads ++ [EvOpenWrite cli_path; EvWrite cli_path data]
             ++ (EvPrint <$> report basic_lib timelock_lib weighted_lib)
    ∧ writes es = [(cli_path, data)].
Proof.
  intros Hrun.
  destruct (text_of w basic_path) as [b|] eqn:Hb;
    [|by destruct (run_read_failure w) as (? & ? & ? & _); [auto|congruence]].
  destruct (text_of w timelock_path) as [t|] eqn:Ht;
    [|by destruct (run_read_failure w) as (? & ? & ? & _); [auto|congruence]].
  destruct (text_of w weighted_path) as [wl|] eqn:Hw;
    [|by destruct (run_read_failure w) as (? & ? & ? & _); [auto|congruence]].
  destruct (text_of w cli_path) as [c0|] eqn:Hc;
    [|by destruct (run_read_failure w) as (? & ? & ? & _); [auto|congruence]].
  rewrite (run_after_reads w b t wl c0) in Hrun by done.
  unfold after_reading, replace_embedded, result_bind in Hrun.
  destruct (sub_decl Basic b c0) as [c1|] eqn:H1; [|done].
  destruct (sub_decl Timelock t c1) as [c2|] eqn:H2; [|done].
  destruct (sub_decl Weighted wl c2) as [c3|] eqn:H3; [|done].
  destruct (decide (cli_path ∈ readonly w)); [done|].
  destruct (encode_text c3) as [data|] eqn:He; [|done].
  injection Hrun as <-.
  by eexists b, t, wl, c0, c1, c2, c3, data, _.
Qed.

Lemma C6_witness :
  ∃ basic_lib timelock_lib weighted_lib c0 c1 c2 c3 data es,
    text_of scenario_world basic_path = Some basic_lib
    ∧ text_of scenario_world timelock_path = Some timelock_lib
    ∧ text_of scenario_world weighted_path = Some weighted_lib
    ∧ text_of scenario_world cli_path = Some c0
    ∧ sub_decl Basic basic_lib c0 = Ok c1
    ∧ sub_decl Timelock timelock_lib c1 = Ok c2
    ∧ sub_decl Weighted weighted_lib c2 = Ok c3
    ∧ encode_text c3 = Some data
    ∧ files (snd (regenerate_templates scenario_world))
      = <[cli_path := data]> (files scenario_world)
    ∧ trace (snd (regenerate_templates scenario_world))
      = trace scenario_world ++ es
    ∧ es = the_reads ++ [EvOpenWrite cli_path; EvWrite cli_path data]
             ++ (EvPrint <$> report basic_lib timelock_lib weighted_lib)
    ∧ writes es = [(cli_path, data)].
Proof.
  apply (C6_three_substitutions_in_order_then_one_write scenario_world).
  vm_compute. reflexivity.
Defined.

(** C7.  Whatever the environment and the outcome of a run, a line is
    printed only after the target file was written: the events before any
    printed line begin with the four reads, the opening of the target and
    the writing of [data], where [data] is what the run computes from the
    templates and the target it read (the encoding of the result of the
    three substitutions), and the target file holds [data] when the run
    ends.  In a run that succeeds the events are exactly the four reads,
    the opening and that writing, and then the four lines of the report
    for the templates read. *)
Theorem C7_report_only_after_the_write
    (env : Env) (w : World) (r : result ()) (w' : World) :
  regenerate_templates_in env w = (r, w') →
  ∃ es,
    trace w' = trace w ++ es
    ∧ (∀ pre line post, es = pre ++ EvPrint line :: post →
         ∃ basic_lib timelock_lib weighted_lib data pre',
           computed env w basic_lib timelock_lib weighted_lib data
           ∧ pre = the_reads ++ [EvOpenWrite cli_path; EvWrite cli_path data]
                     ++ pre'
           ∧ files w' !! cli_path = Some data)
    ∧ (r = Ok () →
         ∃ basic_lib timelock_lib weighted_lib data,
           computed env w basic_lib timelock_lib weighted_lib data
           ∧ es = the_reads ++ [EvOpenWrite cli_path; EvWrite cli_path data]
                    ++ (EvPrint <$> report basic_lib timelock_lib weighted_lib)
           ∧ files w' !! cli_path = Some data).
Proof.
  intros Hrun.
  assert (Forall no_print the_reads) as Hreads by by repeat constructor.
  destruct (run_in_cases env w)
    as [(e & es & H & Hes)
       |[(b & t & wl & c & out & _ & _ & _ & _ & _ & _ & H)
        |(b & t & wl & data & Hdata & H)]];
    rewrite H in Hrun; apply pair_equal_spec in Hrun as [<- <-];
    cbn [trace files].
  - exists es. split_and!; [done| |done].
    intros pre line post ->. apply reads_no_print in Hes.
    apply Forall_app in Hes as [_ Hes]. by apply Forall_cons in Hes as [[] _].
  - exists (the_reads ++ [EvOpenWrite cli_path]). split_and!; [done| |done].
    intros pre line post E.
    assert (Forall no_print (the_reads ++ [EvOpenWrite cli_path])) as Hes.
    { apply Forall_app. split; [done|by repeat constructor]. }
    rewrite E in Hes.
    apply Forall_app in Hes as [_ Hes]. by apply Forall_cons in Hes as [[] _].
  - exists (the_reads ++ [EvOpenWrite cli_path; EvWrite cli_path data]
              ++ (EvPrint <$> printed (stdout_encoding env) (report b t wl))).
    split_and!; [done| |].
    + intros pre line post E. rewrite app_assoc in E.
      apply print_after in E as [pre' ->].
      2:{ apply Forall_app. split; [done|by repeat constructor]. }
      exists b, t, wl, data, pre'. split_and!; [done| |].
      * by rewrite <-app_assoc.
      * by rewrite lookup_insert_eq.
    + intros Hok. exists b, t, wl, data.
      case_decide as E; [|discriminate Hok].
      rewrite E. split_and!; [done..|]. by rewrite lookup_insert_eq.
Qed.

Lemma C7_witness :
  ∃ es,
    trace (snd (regenerate_templates_in utf8_env scenario_world))
    = trace scenario_world ++ es
    ∧ (∀ pre line post, es = pre ++ EvPrint line :: post →
         ∃ basic_lib timelock_lib weighted_lib data pre',
           computed utf8_env scenario_world basic_lib timelock_lib weighted_lib data
           ∧ pre = the_reads ++ [EvOpenWrite cli_path; EvWrite cli_path data]
                     ++ pre'
           ∧ files (snd (regenerate_templates_in utf8_env scenario_world))
               !! cli_path = Some data)
    ∧ (Ok () = Ok () →
         ∃ basic_lib timelock_lib weighted_lib data,
           computed utf8_env scenario_world basic_lib timelock_lib weighted_lib data
           ∧ es = the_reads ++ [EvOpenWrite cli_path; EvWrite cli_path data]
                    ++ (EvPrint <$> report basic_lib timelock_lib weighted_lib)
           ∧ files (snd (regenerate_templates_in utf8_env scenario_world))
               !! cli_path = Some data).
Proof.
  apply (C7_report_only_after_the_write utf8_env scenario_world (Ok ())).
  vm_compute. reflexivity.
Defined.

(** C8.  A region starts at the opener and ends with the first closing
    delimiter after it: when [payload] holds no closing delimiter, the
    match at the opener is the opener, [payload] and the delimiter, whatever
    follows, and the substitution replaces exactly that and goes on with
    what follows; text after the first closing delimiter that begins no
    further region stays as it is, be it the rest of what was meant as the
    payload. *)
Theorem C8_region_ends_at_first_closing_delimiter
    (n : tname) (repl gap payload rest : pystr) :
  contains (decl_head n) gap = false →
  contains raw_close payload = false →
  let region := raw_open n ++ payload ++ raw_close in
  match_at (decl_pattern n) (region ++ rest) = Some (length region)
  ∧ re_sub (decl_pattern n) repl (gap ++ region ++ rest)
    = result_bind (parse_template repl)
        (λ t, Ok (gap ++ expand t region ++ subx (decl_pattern n) t rest))
  ∧ (contains (raw_open n) rest = false →
     re_sub (decl_pattern n) repl (gap ++ region ++ rest)
     = result_bind (parse_template repl)
         (λ t, Ok (gap ++ expand t region ++ rest))).
Proof.
  intros Hgap Hpl region.
  assert (∀ t, subx (decl_pattern n) t (gap ++ region ++ rest)
               = gap ++ expand t region ++ subx (decl_pattern n) t rest) as Hsub.
  { intros t. unfold region. rewrite <-!app_assoc.
    by rewrite subx_gap, subx_region by done. }
  split_and!.
  - apply match_at_decl. exists payload, rest. unfold region.
    by rewrite <-!app_assoc.
  - unfold re_sub. destruct (parse_template repl) as [t|e]; [|done].
    cbn [result_bind]. by rewrite Hsub.
  - intros Hrest. unfold re_sub.
    destruct (parse_template repl) as [t|e]; [|done].
    cbn [result_bind]. by rewrite Hsub, (subx_no_opener _ _ rest).
Qed.

Lemma C8_witness :
  let region := raw_open Basic ++ lit "a" ++ raw_close in
  let rest := lit "b" ++ raw_close ++ lit " y" in
  match_at (decl_pattern Basic) (region ++ rest) = Some (length region)
  ∧ re_sub (decl_pattern Basic) (decl_fstring Basic (lit "NEW"))
      (lit "x " ++ region ++ rest)
    = result_bind (parse_template (decl_fstring Basic (lit "NEW")))
        (λ t, Ok (lit "x " ++ expand t region
                    ++ subx (decl_pattern Basic) t rest))
  ∧ (contains (raw_open Basic) rest = false →
     re_sub (decl_pattern Basic) (decl_fstring Basic (lit "NEW"))
       (lit "x " ++ region ++ rest)
     = result_bind (parse_template (decl_fstring Basic (lit "NEW")))
         (λ t, Ok (lit "x " ++ expand t region ++ rest))).
Proof.
  apply (C8_region_ends_at_first_closing_delimiter Basic
           (decl_fstring Basic (lit "NEW")) (lit "x ") (lit "a")
           (lit "b" ++ raw_close ++ lit " y")); vm_compute; reflexivity.
Defined.

(** C9 fails on the code.  The basic template below is a backslash and
    [g<0>], which [re.sub] reads as a reference to the whole match: each of
    the two regions is replaced by a declaration that wraps the old region
    itself, and the two end with different payloads.  (Every match is
    replaced, not only the first; with a template that is taken literally
    all of them receive the same declaration, see [embed_render].) *)
Theorem C9_group_reference_gives_differing_payloads :
  let cli_content :=
    decl_fstring Basic (lit "A") ++ [10] ++ decl_fstring Basic (lit "B") in
  let out :=
    decl_fstring Basic (decl_fstring Basic (lit "A")) ++ [10]
      ++ decl_fstring Basic (decl_fstring Basic (lit "B")) in
  payloads Basic cli_content = [lit "A"; lit "B"]
  ∧ sub_decl Basic (lit "\g<0>") cli_content = Ok out
  ∧ fst (regenerate_templates (world_with (lit "\g<0>") [] [] cli_content))
    = Ok ()
  ∧ text_of (snd (regenerate_templates
                    (world_with (lit "\g<0>") [] [] cli_content))) cli_path
    = Some out
  ∧ payloads Basic out
    = [raw_open Basic ++ lit "A"; raw_open Basic ++ lit "B"].
Proof. vm_compute. by repeat split. Qed.




(** * Further properties of the script *)

(** ** Runs that fail *)

(** X1.  In any environment, a run that ends with an exception of
    reading, of a template, of opening or encoding for the target, or of
    printing has left the target in one of three states.  Unchanged, like
    every other file: the run has done nothing but open files for
    reading.  Empty: the exception is [UnicodeEncodeError] for the target,
    whose text the encoding of the locale cannot encode; this does not
    happen in a UTF-8 locale, where the text consists of characters read
    from UTF-8 files or denoted by an escape.  Completely rewritten, with
    what the run computes from the files it read: the exception is
    [UnicodeEncodeError] for standard output, whose encoding has no form
    for a line of the report (as ASCII has none for the check mark of the
    first line); the lines before that one were printed. *)
Theorem target_after_a_failed_run
    (env : Env) (w : World) (e : exn) (w' : World) :
  regenerate_templates_in env w = (Raise e, w') →
  (files w' = files w ∧ ∃ es, trace w' = trace w ++ es ∧ Forall is_read es)
  ∨ (e = UnicodeEncodeError cli_path
     ∧ file_encoding env ≠ utf8
     ∧ files w' = <[cli_path := []]> (files w)
     ∧ trace w' = trace w ++ the_reads ++ [EvOpenWrite cli_path]
     ∧ ∃ basic_lib timelock_lib weighted_lib cli_content out,
         text_in (file_encoding env) w basic_path = Some basic_lib
         ∧ text_in (file_encoding env) w timelock_path = Some timelock_lib
         ∧ text_in (file_encoding env) w weighted_path = Some weighted_lib
         ∧ text_in (file_encoding env) w cli_path = Some cli_content
         ∧ replace_embedded basic_lib timelock_lib weighted_lib cli_content
           = Ok out
         ∧ encode (file_encoding env) out = None)
  ∨ (e = UnicodeEncodeError stdout_name
     ∧ ∃ basic_lib timelock_lib weighted_lib data lines line rest,
         computed env w basic_lib timelock_lib weighted_lib data
         ∧ files w' = <[cli_path := data]> (files w)
         ∧ trace w' = trace w ++ the_reads
                        ++ [EvOpenWrite cli_path; EvWrite cli_path data]
                        ++ (EvPrint <$> lines)
         ∧ report basic_lib timelock_lib weighted_lib = lines ++ line :: rest
         ∧ encode (stdout_encoding env) line = None).
Proof.
  intros Hrun.
  destruct (run_in_cases env w)
    as [(e' & es & H & Hes)
       |[(b & t & wl & c & out & Hb & Ht & Hw & Hc & E & Henc & H)
        |(b & t & wl & data & Hdata & H)]].
  - rewrite H in Hrun. apply pair_equal_spec in Hrun as [_ <-].
    left. split; [done|]. by exists es.
  - rewrite H in Hrun. apply pair_equal_spec in Hrun as [[= <-] <-].
    right. left. split_and!; [done| |done|done|by exists b, t, wl, c, out].
    intros Hutf8. rewrite Hutf8 in Hb, Ht, Hw, Hc, Henc.
    destruct (encode_text_scalar out) as [data Hdata];
      [|cbn [encode utf8] in Henc; congruence].
    apply (replace_embedded_scalar b t wl c out); [| | | |exact E].
    + apply text_char_scalar, (text_of_chars w basic_path), Hb.
    + apply text_char_scalar, (text_of_chars w timelock_path), Ht.
    + apply text_char_scalar, (text_of_chars w weighted_path), Hw.
    + apply text_char_scalar, (text_of_chars w cli_path), Hc.
  - rewrite H in Hrun. apply pair_equal_spec in Hrun as [Hr <-].
    right. right.
    destruct (printed_split (stdout_encoding env) (report b t wl))
      as [Hall|(line & rest & Hsplit & Hline)].
    { rewrite decide_True in Hr by done. discriminate Hr. }
    case_decide; [done|]. injection Hr as <-. split; [done|].
    by exists b, t, wl, data, (printed (stdout_encoding env) (report b t wl)),
         line, rest.
Qed.

Lemma target_after_a_failed_run_witness :
  let env := mkEnv utf8 ascii_codec in
  let w' := snd (regenerate_templates_in env scenario_world) in
  (files w' = files scenario_world
   ∧ ∃ es, trace w' = trace scenario_world ++ es ∧ Forall is_read es)
  ∨ (UnicodeEncodeError stdout_name = UnicodeEncodeError cli_path
     ∧ file_encoding env ≠ utf8
     ∧ files w' = <[cli_path := []]> (files scenario_world)
     ∧ trace w' = trace scenario_world ++ the_reads ++ [EvOpenWrite cli_path]
     ∧ ∃ basic_lib timelock_lib weighted_lib cli_content out,
         text_in (file_encoding env) scenario_world basic_path = Some basic_lib
         ∧ text_in (file_encoding env) scenario_world timelock_path
           = Some timelock_lib
         ∧ text_in (file_encoding env) scenario_world weighted_path
           = Some weighted_lib
         ∧ text_in (file_encoding env) scenario_world cli_path = Some cli_content
         ∧ replace_embedded basic_lib timelock_lib weighted_lib cli_content
           = Ok out
         ∧ encode (file_encoding env) out = None)
  ∨ (UnicodeEncodeError stdout_name = UnicodeEncodeError stdout_name
     ∧ ∃ basic_lib timelock_lib weighted_lib data lines line rest,
         computed env scenario_world basic_lib timelock_lib weighted_lib data
         ∧ files w' = <[cli_path := data]> (files scenario_world)
         ∧ trace w' = trace scenario_world ++ the_reads
                        ++ [EvOpenWrite cli_path; EvWrite cli_path data]
                        ++ (EvPrint <$> lines)
         ∧ report basic_lib timelock_lib weighted_lib = lines ++ line :: rest
         ∧ encode (stdout_encoding env) line = None).
Proof.
  apply (target_after_a_failed_run (mkEnv utf8 ascii_codec) scenario_world
           (UnicodeEncodeError stdout_name)).
  vm_compute. reflexivity.
Defined.

(** X2.  Whatever its outcome, a run changes no file other than the
    target: the template files, and every other file, keep their bytes. *)
Theorem run_changes_the_target_only (w : World) (r : result ()) (w' : World)
    (path : string) :
  regenerate_templates w = (r, w') →
  path ≠ cli_path →
  files w' !! path = files w !! path.
Proof.
  intros Hrun Hp.
  destruct (run_cases w) as [(e' & es & H & Hes)|H].
  - rewrite H in Hrun. by injection Hrun as <- <-.
  - destruct H as (? & ? & ? & ? & ? & data & _ & _ & _ & _ & _ & _ & _ & _ & H).
    rewrite H in Hrun. injection Hrun as <- <-.
    unfold final_world. cbn [files]. by rewrite lookup_insert_ne.
Qed.

Lemma run_changes_the_target_only_witness :
  files (snd (regenerate_templates scenario_world)) !! basic_path
  = files scenario_world !! basic_path.
Proof.
  apply (run_changes_the_target_only scenario_world (Ok ())).
  - vm_compute. reflexivity.
  - vm_compute. discriminate.
Defined.

(** X3.  When the target cannot be opened for writing no run succeeds;
    when, besides, the four files can be read and the three replacement
    templates compile, the exception is [PermissionError] for the target,
    raised after the four reads, with nothing written and nothing
    printed. *)
Theorem read_only_target_is_refused (w : World) :
  cli_path ∈ readonly w →
  (∀ w', regenerate_templates w ≠ (Ok (), w'))
  ∧ (∀ basic_lib timelock_lib weighted_lib cli_content out,
       text_of w basic_path = Some basic_lib →
       text_of w timelock_path = Some timelock_lib →
       text_of w weighted_path = Some weighted_lib →
       text_of w cli_path = Some cli_content →
       replace_embedded basic_lib timelock_lib weighted_lib cli_content = Ok out →
       regenerate_templates w = (Raise (PermissionError cli_path), after_reads w)).
Proof.
  intros Hro. split.
  - intros w' Hrun.
    destruct (run_cases w) as [(e' & es & H & Hes)|H].
    + rewrite H in Hrun. discriminate Hrun.
    + by destruct H as (? & ? & ? & ? & ? & ? & _ & _ & _ & _ & _ & ? & _).
  - intros b t wl c out Hb Ht Hw Hc E.
    rewrite (run_after_reads w b t wl c) by done.
    unfold after_reading. rewrite E. by rewrite decide_True.
Qed.

Lemma read_only_target_is_refused_witness :
  (∀ w', regenerate_templates scenario_world_read_only ≠ (Ok (), w'))
  ∧ (∀ basic_lib timelock_lib weighted_lib cli_content out,
       text_of scenario_world_read_only basic_path = Some basic_lib →
       text_of scenario_world_read_only timelock_path = Some timelock_lib →
       text_of scenario_world_read_only weighted_path = Some weighted_lib →
       text_of scenario_world_read_only cli_path = Some cli_content →
       replace_embedded basic_lib timelock_lib weighted_lib cli_content = Ok out →
       regenerate_templates scenario_world_read_only
       = (Raise (PermissionError cli_path), after_reads scenario_world_read_only)).
Proof.
  apply (read_only_target_is_refused scenario_world_read_only).
  vm_compute. reflexivity.
Defined.

(** X4.  The files are read in the order basic, timelock, weighted,
    target, and the first one that cannot be read decides the outcome:
    the files before it were opened, a file that does not exist raises
    [FileNotFoundError] without being opened, a file that is not valid
    UTF-8 raises [UnicodeDecodeError] after it was opened; no later file
    is touched. *)
Theorem first_unreadable_file_decides
    (w : World) (pre post : list string) (path : string) :
  [basic_path; timelock_path; weighted_path; cli_path] = pre ++ path :: post →
  Forall (λ q, is_Some (text_of w q)) pre →
  text_of w path = None →
  regenerate_templates w
  = match files w !! path with
    | None =>
        (Raise (FileNotFoundError path),
         mkWorld (files w) (readonly w) (trace w ++ (EvOpenRead <$> pre)))
    | Some _ =>
        (Raise (UnicodeDecodeError path),
         mkWorld (files w) (readonly w)
           (trace w ++ (EvOpenRead <$> pre) ++ [EvOpenRead path]))
    end.
Proof.
  intros E Hpre Hpath.
  unfold regenerate_templates, regenerate_templates_in, mbind, io_mbind, io_bind.
  cbn [file_encoding utf8_env].
  destruct pre as [|p1 pre]; cbn [app] in E.
  { injection E as <- _.
    rewrite (read_text_unreadable utf8 w basic_path Hpath).
    destruct (files w !! basic_path); [done|].
    rewrite fmap_nil, app_nil_r. by destruct w. }
  injection E as <- E. apply Forall_cons in Hpre as [[b Hb] Hpre].
  rewrite (read_text_ok utf8 _ _ _ Hb).
  destruct pre as [|p2 pre]; cbn [app] in E.
  { injection E as <- _.
    rewrite (read_text_unreadable utf8 _ timelock_path) by done.
    cbn [files log]. destruct (files w !! timelock_path); [|done].
    unfold log. cbn [files readonly trace]. by rewrite <-app_assoc. }
  injection E as <- E. apply Forall_cons in Hpre as [[t Ht] Hpre].
  rewrite (read_text_ok utf8 _ _ t) by done.
  destruct pre as [|p3 pre]; cbn [app] in E.
  { injection E as <- _.
    rewrite (read_text_unreadable utf8 _ weighted_path) by done.
    cbn [files log]. unfold log. cbn [files readonly trace].
    destruct (files w !! weighted_path); by rewrite <-?app_assoc. }
  injection E as <- E. apply Forall_cons in Hpre as [[wl Hw] Hpre].
  rewrite (read_text_ok utf8 _ _ wl) by done.
  destruct pre as [|p4 pre]; cbn [app] in E.
  { injection E as <- _.
    rewrite (read_text_unreadable utf8 _ cli_path) by done.
    cbn [files log]. unfold log. cbn [files readonly trace].
    destruct (files w !! cli_path); by rewrite <-?app_assoc. }
  injection E as _ E. by destruct pre.
Qed.

Lemma first_unreadable_file_decides_witness :
  regenerate_templates world_with_undecodable_template
  = match files world_with_undecodable_template !! weighted_path with
    | None =>
        (Raise (FileNotFoundError weighted_path),
         mkWorld (files world_with_undecodable_template)
           (readonly world_with_undecodable_template)
           (trace world_with_undecodable_template
              ++ (EvOpenRead <$> [basic_path; timelock_path])))
    | Some _ =>
        (Raise (UnicodeDecodeError weighted_path),
         mkWorld (files world_with_undecodable_template)
           (readonly world_with_undecodable_template)
           (trace world_with_undecodable_template
              ++ (EvOpenRead <$> [basic_path; timelock_path])
              ++ [EvOpenRead weighted_path]))
    end.
Proof.
  apply (first_unreadable_file_decides world_with_undecodable_template
           [basic_path; timelock_path] [cli_path] weighted_path).
  - reflexivity.
  - apply Forall_cons; split; [by eexists; vm_compute; reflexivity|].
    apply Forall_cons; split; [by eexists; vm_compute; reflexivity|].
    apply Forall_nil_2.
  - vm_compute. reflexivity.
Defined.

(** ** Runs that succeed *)

(** X5.  After a run that succeeds, reading the target gives the text the
    three substitutions computed, with its line endings translated; when
    no template contains a backslash that text holds no carriage return
    and is read back exactly as it was computed. *)
Theorem written_text_is_read_back (w w' : World) :
  regenerate_templates w = (Ok (), w') →
  ∃ basic_lib timelock_lib weighted_lib cli_content out,
    text_of w basic_path = Some basic_lib
    ∧ text_of w timelock_path = Some timelock_lib
    ∧ text_of w weighted_path = Some weighted_lib
    ∧ text_of w cli_path = Some cli_content
    ∧ replace_embedded basic_lib timelock_lib weighted_lib cli_content = Ok out
    ∧ text_of w' cli_path = Some (universal_newlines out)
    ∧ (backslash ∉ basic_lib → backslash ∉ timelock_lib →
       backslash ∉ weighted_lib →
       universal_newlines out = out).
Proof.
  intros Hrun.
  destruct (run_cases w) as [(e' & es & H & Hes)|H].
  { rewrite H in Hrun. discriminate Hrun. }
  destruct H as (b & t & wl & c & out & data
                 & Hb & Ht & Hw & Hc & E & _ & _ & Hdec & H).
  rewrite H in Hrun. injection Hrun as <-.
  exists b, t, wl, c, out. split_and!; [done..| |].
  - unfold text_of, final_world. cbn [files].
    rewrite lookup_insert_eq. exact Hdec.
  - intros Nb Nt Nw. rewrite replace_embedded_literal in E by done.
    injection E as <-. apply universal_newlines_id.
    apply embed_all_text; by eapply text_of_chars.
Qed.

Lemma written_text_is_read_back_witness :
  ∃ basic_lib timelock_lib weighted_lib cli_content out,
    text_of scenario_world basic_path = Some basic_lib
    ∧ text_of scenario_world timelock_path = Some timelock_lib
    ∧ text_of scenario_world weighted_path = Some weighted_lib
    ∧ text_of scenario_world cli_path = Some cli_content
    ∧ replace_embedded basic_lib timelock_lib weighted_lib cli_content = Ok out
    ∧ text_of (snd (regenerate_templates scenario_world)) cli_path
      = Some (universal_newlines out)
    ∧ (backslash ∉ basic_lib → backslash ∉ timelock_lib →
       backslash ∉ weighted_lib →
       universal_newlines out = out).
Proof.
  apply (written_text_is_read_back scenario_world).
  vm_compute. reflexivity.
Defined.



(** ** One substitution *)

(** X7.  A text in which the opener of the name does not occur, or in
    which no closing delimiter occurs (a declaration that is never
    closed), has no region: the substitution returns it as it is,
    provided the replacement template compiles, and raises otherwise. *)
Theorem text_without_a_region_is_returned_as_it_is (n : tname) (lib s : pystr) :
  contains (raw_open n) s = false ∨ contains raw_close s = false →
  sub_decl n lib s
  = result_bind (parse_template (decl_fstring n lib)) (λ _, Ok s).
Proof.
  intros H. unfold sub_decl, re_sub.
  destruct (parse_template (decl_fstring n lib)) as [t|e]; [|done].
  cbn [result_bind]. f_equal. destruct H as [H|H].
  - by apply subx_no_opener.
  - by apply subx_no_closer.
Qed.

Lemma text_without_a_region_is_returned_as_it_is_witness :
  sub_decl Basic (lit "fn main() {}") (raw_open Basic ++ lit "never closed")
  = result_bind (parse_template (decl_fstring Basic (lit "fn main() {}")))
      (λ _, Ok (raw_open Basic ++ lit "never closed")).
Proof.
  apply (text_without_a_region_is_returned_as_it_is Basic (lit "fn main() {}")
           (raw_open Basic ++ lit "never closed")).
  right. vm_compute. reflexivity.
Defined.

(** X8.  On a document laid out as declarations the substitution for a
    name replaces every declaration of that name, not only the first, by
    the expansion of the replacement template for that declaration, and
    keeps the declarations of the other names and the text around them;
    it raises when the template does not compile. *)
Theorem every_declaration_of_the_name_is_replaced
    (n : tname) (lib : pystr) (l : layout) (tail : pystr) :
  well_laid l tail = true →
  sub_decl n lib (render l tail)
  = result_bind (parse_template (decl_fstring n lib))
      (λ t, Ok (render_with
                  (λ m payload, if decide (m = n)
                                then expand t (decl_fstring m payload)
                                else decl_fstring m payload) l tail)).
Proof.
  intros H. unfold sub_decl, re_sub.
  destruct (parse_template (decl_fstring n lib)) as [t|e]; [|done].
  cbn [result_bind]. by rewrite subx_render.
Qed.

Lemma every_declaration_of_the_name_is_replaced_witness :
  sub_decl Timelock (lit "\g<0>") (render scenario_layout [10])
  = result_bind (parse_template (decl_fstring Timelock (lit "\g<0>")))
      (λ t, Ok (render_with
                  (λ m payload, if decide (m = Timelock)
                                then expand t (decl_fstring m payload)
                                else decl_fstring m payload)
                  scenario_layout [10])).
Proof.
  apply (every_declaration_of_the_name_is_replaced Timelock (lit "\g<0>")
           scenario_layout [10]).
  vm_compute. reflexivity.
Defined.

(** X9.  The regions the pattern of a name finds in a document laid out
    as declarations are the declarations of that name, in their order,
    each with its payload. *)
Theorem regions_of_a_layout (n : tname) (l : layout) (tail : pystr) :
  well_laid l tail = true →
  payloads n (render l tail) = payloads_of n l.
Proof.
  unfold well_laid. rewrite andb_true_iff. intros [Hl Htail].
  induction l as [|[[gap m] payload] l IH]; cbn [render].
  - apply payloads_no_opener, no_head_no_opener. by apply headless_spec.
  - cbn [forallb] in Hl. apply andb_true_iff in Hl as [Hitem Hl].
    apply andb_true_iff in Hitem as [Hgap Hpl].
    apply inert_spec in Hpl as [Hclose Hhead].
    rewrite payloads_gap by by apply headless_spec.
    unfold payloads_of. cbn [omap list_omap]. fold (payloads_of n l).
    destruct (decide (m = n)) as [->|Hne].
    + rewrite payloads_region by done. by rewrite IH.
    + rewrite !(app_assoc (raw_open m)), !(app_assoc (raw_open m ++ payload)).
      rewrite payloads_pass; [by rewrite IH|].
      intros a b E. rewrite <-!app_assoc in E. symmetry in E.
      destruct (opener_in_declaration _ _ _ _ _ _ (Hhead n) E)
        as [(_ & ? & _)|(a' & -> & _)]; [done|].
      exists a'. by rewrite <-!app_assoc.
Qed.

Lemma regions_of_a_layout_witness :
  payloads Timelock (render scenario_layout [10])
  = payloads_of Timelock scenario_layout.
Proof.
  apply (regions_of_a_layout Timelock scenario_layout [10]).
  vm_compute. reflexivity.
Defined.

(** X10.  One substitution is idempotent on every text when its template
    contains no backslash, no closing delimiter and not the head of its
    own declaration (the heads of the other two names are allowed): made
    on its own result, it returns that result. *)
Theorem one_substitution_is_idempotent (n : tname) (lib s : pystr) :
  backslash ∉ lib →
  contains raw_close lib = false →
  contains (decl_head n) lib = false →
  ∃ s1, sub_decl n lib s = Ok s1 ∧ sub_decl n lib s1 = Ok s1.
Proof.
  intros Hb Hc Hh. exists (embed n lib s).
  rewrite !sub_decl_literal by done. split; [done|]. f_equal.
  apply settled_fixed; [done|]. by apply settled_embed.
Qed.

Lemma one_substitution_is_idempotent_witness :
  ∃ s1,
    sub_decl Basic (decl_head Timelock)
      (decl_fstring Basic (lit "old") ++ lit " rest " ++ raw_close) = Ok s1
    ∧ sub_decl Basic (decl_head Timelock) s1 = Ok s1.
Proof.
  apply (one_substitution_is_idempotent Basic (decl_head Timelock)
           (decl_fstring Basic (lit "old") ++ lit " rest " ++ raw_close));
    try (vm_compute; reflexivity).
  apply contains_char_elem. reflexivity.
Defined.

(** X11.  On a document laid out as declarations the substitutions for
    two different names, with plain templates, can be made in either
    order: both orders give the document with the payloads of the two
    names set to their templates. *)
Theorem substitutions_of_two_names_commute
    (n m : tname) (libn libm : pystr) (l : layout) (tail : pystr) :
  n ≠ m → plain libn = true → plain libm = true →
  well_laid l tail = true →
  result_bind (sub_decl n libn (render l tail)) (sub_decl m libm)
  = result_bind (sub_decl m libm (render l tail)) (sub_decl n libn)
  ∧ result_bind (sub_decl n libn (render l tail)) (sub_decl m libm)
    = Ok (render (set_payload m libm (set_payload n libn l)) tail).
Proof.
  intros Hne [Bn In]%plain_spec [Bm Im]%plain_spec Hl.
  rewrite !sub_decl_literal by done. cbn [result_bind].
  rewrite !sub_decl_literal by done.
  rewrite !(embed_render _ _ l) by done.
  rewrite !embed_render by by apply well_laid_set_payload.
  by rewrite (set_payload_comm n m).
Qed.

Lemma substitutions_of_two_names_commute_witness :
  result_bind (sub_decl Basic (lit "fn main() {}") (render scenario_layout [10]))
    (sub_decl Weighted (lit "fn weighted() {}"))
  = result_bind
      (sub_decl Weighted (lit "fn weighted() {}") (render scenario_layout [10]))
      (sub_decl Basic (lit "fn main() {}"))
  ∧ result_bind (sub_decl Basic (lit "fn main() {}") (render scenario_layout [10]))
      (sub_decl Weighted (lit "fn weighted() {}"))
    = Ok (render (set_payload Weighted (lit "fn weighted() {}")
                    (set_payload Basic (lit "fn main() {}") scenario_layout))
            [10]).
Proof.
  apply (substitutions_of_two_names_commute Basic Weighted
           (lit "fn main() {}") (lit "fn weighted() {}") scenario_layout [10]);
    try (vm_compute; reflexivity).
  discriminate.
Defined.

(** ** Backslashes in a template *)

(** X12.  The replacement string of a substitution is taken as it is
    written exactly when every backslash in it is followed by a character
    that is neither an ASCII letter, nor a digit, nor a backslash (a
    backslash that ends the template is followed by the double quote of
    the closing delimiter); the substitution then embeds the template
    verbatim. *)
Theorem replacement_taken_literally (n : tname) (lib : pystr) :
  (parse_template (decl_fstring n lib) = Ok (TLit <$> decl_fstring n lib)
   ↔ taken_literally (decl_fstring n lib) = true)
  ∧ (taken_literally (decl_fstring n lib) = true →
     ∀ s, sub_decl n lib s = Ok (embed n lib s)).
Proof.
  split; [split|].
  - apply parse_template_literal_inv.
  - apply parse_template_taken_literally.
  - intros H s. unfold sub_decl, re_sub, embed.
    by rewrite parse_template_taken_literally.
Qed.



(** X14.  When, in one of the three templates, the first backslash is
    followed by an ASCII letter that is neither one of a, b, f, n, r, t, v
    nor g (the x of a Rust byte escape, the u of a Unicode escape), the
    run raises after the four reads, whatever the target holds: nothing is
    written and nothing is printed.  The exception is [re.error] when the
    templates of the substitutions made before that one compile; else it
    is what the first of them that does not compile raises. *)
Theorem bad_escape_aborts_the_run (w : World)
    (basic_lib timelock_lib weighted_lib cli_content : pystr)
    (n : tname) (pre post : pystr) (c : N) :
  text_of w basic_path = Some basic_lib →
  text_of w timelock_path = Some timelock_lib →
  text_of w weighted_path = Some weighted_lib →
  text_of w cli_path = Some cli_content →
  lib_of basic_lib timelock_lib weighted_lib n = pre ++ backslash :: c :: post →
  backslash ∉ pre →
  is_ascii_letter c = true → escape_of c = None → c ≠ 103 →
  (∃ e, regenerate_templates w = (Raise e, after_reads w))
  ∧ ((∀ m, before m n = true →
        ∃ t, parse_template
               (decl_fstring m (lib_of basic_lib timelock_lib weighted_lib m))
             = Ok t) →
     regenerate_templates w = (Raise ReError, after_reads w)).
Proof.
  intros Hb Ht Hw Hc Hn Hpre Hl He Hg.
  rewrite (run_after_reads w basic_lib timelock_lib weighted_lib cli_content)
    by done.
  unfold after_reading.
  pose proof (λ s, sub_decl_bad_escape n pre post c s Hpre Hl He Hg) as Hbad.
  rewrite <-Hn in Hbad.
  assert (∀ m s, (∃ t, parse_template
                         (decl_fstring m
                            (lib_of basic_lib timelock_lib weighted_lib m))
                       = Ok t) →
            ∃ s', sub_decl m (lib_of basic_lib timelock_lib weighted_lib m) s
                  = Ok s') as Hok.
  { intros m s [t E]. unfold sub_decl, re_sub. rewrite E. by eexists. }
  unfold replace_embedded. destruct n; cbn [lib_of] in Hbad.
  - rewrite Hbad. cbn [result_bind]. split; [by eexists|done].
  - split.
    + destruct (sub_decl Basic basic_lib cli_content) as [c1|e];
        cbn [result_bind]; [rewrite Hbad|]; by eexists.
    + intros Hcomp.
      destruct (Hok Basic cli_content (Hcomp Basic eq_refl)) as [c1 E1].
      cbn [lib_of] in E1. rewrite E1. cbn [result_bind]. by rewrite Hbad.
  - split.
    + destruct (sub_decl Basic basic_lib cli_content) as [c1|e];
        cbn [result_bind]; [|by eexists].
      destruct (sub_decl Timelock timelock_lib c1) as [c2|e];
        cbn [result_bind]; [rewrite Hbad|]; by eexists.
    + intros Hcomp.
      destruct (Hok Basic cli_content (Hcomp Basic eq_refl)) as [c1 E1].
      cbn [lib_of] in E1. rewrite E1. cbn [result_bind].
      destruct (Hok Timelock c1 (Hcomp Timelock eq_refl)) as [c2 E2].
      cbn [lib_of] in E2. rewrite E2. cbn [result_bind]. by rewrite Hbad.
Qed.

Lemma bad_escape_aborts_the_run_witness :
  (∃ e, regenerate_templates scenario_world_escape
        = (Raise e, after_reads scenario_world_escape))
  ∧ ((∀ m, before m Weighted = true →
        ∃ t, parse_template
               (decl_fstring m (lib_of (lit "fn main() {}") (lit "fn locked() {}")
                                  (lit "let s = '\x41';") m))
             = Ok t) →
     regenerate_templates scenario_world_escape
     = (Raise ReError, after_reads scenario_world_escape)).
Proof.
  apply (bad_escape_aborts_the_run scenario_world_escape
           (lit "fn main() {}") (lit "fn locked() {}") (lit "let s = '\x41';")
           (render scenario_layout [10]) Weighted
           (lit "let s = '") (lit "41';") 120);
    try (vm_compute; reflexivity).
  - apply contains_char_elem. reflexivity.
  - discriminate.
Defined.

(** X15.  A backslash followed by one of a, b, f, n, r, t, v or by a
    second backslash is not embedded: in a template that has no other
    backslash, the substitution embeds the character the escape denotes
    (a line feed for backslash n, one backslash for two) in the place of
    the two characters. *)
Theorem escape_is_translated (n : tname) (pre post : pystr) (e x : N) (s : pystr) :
  backslash ∉ pre → backslash ∉ post → escape_of e = Some x →
  sub_decl n (pre ++ backslash :: e :: post) s
  = Ok (embed n (pre ++ x :: post) s).
Proof.
  intros Hpre Hpost He. unfold sub_decl, re_sub, embed, decl_fstring.
  rewrite <-(app_assoc pre), (sub_decl_prefix n pre _ Hpre).
  rewrite <-!app_comm_cons. unfold parse_template at 1.
  cbn [parse_template_go]. rewrite N.eqb_refl.
  assert ((e =? 103) = false) as ->.
  { apply N.eqb_neq. intros ->. done. }
  assert ((e =? 48) = false) as ->.
  { apply N.eqb_neq. intros ->. done. }
  assert (is_digit e = false) as ->.
  { unfold escape_of in He. unfold is_digit.
    repeat case_match; try done;
      match goal with H : (e =? _) = true |- _ => apply N.eqb_eq in H; subst e end;
      done. }
  rewrite He. fold (parse_template (post ++ raw_close)).
  rewrite (parse_template_tail post Hpost). cbn [tcons result_bind].
  do 2 f_equal. rewrite <-(app_assoc pre), <-app_comm_cons.
  by rewrite !fmap_app, fmap_cons, !fmap_app, <-!app_assoc.
Qed.

Lemma escape_is_translated_witness :
  sub_decl Basic (lit "println!('a" ++ backslash :: 110 :: lit "b');")
    (decl_fstring Basic (lit "OLD"))
  = Ok (embed Basic (lit "println!('a" ++ 10 :: lit "b');")
          (decl_fstring Basic (lit "OLD"))).
Proof.
  apply (escape_is_translated Basic (lit "println!('a") (lit "b');") 110 10).
  - apply contains_char_elem. reflexivity.
  - apply contains_char_elem. reflexivity.
  - reflexivity.
Defined.

(** X16.  A backslash followed by a digit, in a template with no other
    backslash and no digit right after: backslash 0 is embedded as the
    character NUL, and backslash followed by one of 1 to 9 is read as a
    reference to a group the pattern does not have, so that the
    substitution raises. *)
Theorem digit_after_backslash (n : tname) (pre post : pystr) (s : pystr) :
  backslash ∉ pre → backslash ∉ post →
  (∀ d rest, post = d :: rest → is_digit d = false) →
  sub_decl n (pre ++ backslash :: 48 :: post) s
  = Ok (embed n (pre ++ 0 :: post) s)
  ∧ (∀ e, is_digit e = true → e ≠ 48 →
       sub_decl n (pre ++ backslash :: e :: post) s = Raise ReError).
Proof.
  intros Hpre Hpost Hd.
  assert (∃ d rest1, post ++ raw_close = d :: rest1 ∧ is_digit d = false)
    as (d & rest1 & E & Hd1).
  { destruct post as [|d rest].
    - by exists dquote, (lit "#;").
    - exists d, (rest ++ raw_close). split; [done|]. by eapply Hd. }
  assert (is_octdigit d = false) as Ho.
  { unfold is_digit, is_octdigit in *.
    destruct (48 <=? d); [|done]. cbn [andb] in *.
    apply N.leb_gt in Hd1. apply N.leb_gt. lia. }
  split.
  - unfold sub_decl, re_sub, embed, decl_fstring.
    rewrite <-(app_assoc pre), (sub_decl_prefix n pre _ Hpre).
    rewrite <-!app_comm_cons. unfold parse_template at 1.
    cbn [parse_template_go]. rewrite N.eqb_refl.
    change (48 =? 103) with false. change (48 =? 48) with true. cbn match.
    pose proof (parse_template_tail post Hpost) as Htail.
    unfold parse_template in Htail. rewrite E in Htail |- *. rewrite Ho, Htail.
    cbn [tcons result_bind]. do 2 f_equal.
    rewrite <-E, <-(app_assoc pre), <-app_comm_cons.
    by rewrite !fmap_app, fmap_cons, !fmap_app, <-!app_assoc.
  - intros e He Hne. destruct (digit_not_escape e He) as [Hg _].
    unfold sub_decl, re_sub, decl_fstring.
    rewrite <-(app_assoc pre), (sub_decl_prefix n pre _ Hpre).
    rewrite <-!app_comm_cons. unfold parse_template at 1.
    cbn [parse_template_go]. rewrite N.eqb_refl, Hg.
    assert ((e =? 48) = false) as -> by by apply N.eqb_neq.
    rewrite He, E, Hd1. done.
Qed.

Lemma digit_after_backslash_witness :
  sub_decl Basic (lit "let nul = '" ++ backslash :: 48 :: lit "';")
    (decl_fstring Basic (lit "OLD"))
  = Ok (embed Basic (lit "let nul = '" ++ 0 :: lit "';")
          (decl_fstring Basic (lit "OLD")))
  ∧ (∀ e, is_digit e = true → e ≠ 48 →
       sub_decl Basic (lit "let nul = '" ++ backslash :: e :: lit "';")
         (decl_fstring Basic (lit "OLD"))
       = Raise ReError).
Proof.
  apply (digit_after_backslash Basic (lit "let nul = '") (lit "';")
           (decl_fstring Basic (lit "OLD"))).
  - apply contains_char_elem. reflexivity.
  - apply contains_char_elem. reflexivity.
  - intros d rest [= <- _]. reflexivity.
Defined.

(** X17.  A template that holds, as its only backslash, the group
    reference backslash g<0> makes the substitution put the old
    declaration, delimiters included, in the place of the reference: the
    new payload is the template with the old declaration inside it. *)
Theorem group_reference_wraps_the_old_declaration
    (n : tname) (pre post gap payload rest : pystr) :
  backslash ∉ pre → backslash ∉ post →
  contains (decl_head n) gap = false →
  contains raw_close payload = false →
  contains (raw_open n) rest = false →
  sub_decl n (pre ++ lit "\g<0>" ++ post)
    (gap ++ decl_fstring n payload ++ rest)
  = Ok (gap ++ decl_fstring n (pre ++ decl_fstring n payload ++ post) ++ rest).
Proof.
  intros Hpre Hpost Hgap Hpl Hrest. unfold sub_decl, re_sub.
  unfold decl_fstring at 1.
  rewrite <-!(app_assoc pre), (sub_decl_prefix n pre _ Hpre).
  unfold parse_template at 1.
  rewrite <-(app_assoc _ post), parse_template_group0.
  fold (parse_template (post ++ raw_close)).
  rewrite (parse_template_tail post Hpost). cbn [tcons result_bind].
  f_equal. unfold decl_fstring. rewrite <-!app_assoc.
  rewrite subx_gap, subx_region by done.
  rewrite (subx_no_opener _ _ rest) by done.
  rewrite expand_app, expand_literal. cbn [expand].
  rewrite expand_literal. by rewrite <-!app_assoc.
Qed.

Lemma group_reference_wraps_the_old_declaration_witness :
  sub_decl Basic (lit "// was: " ++ lit "\g<0>" ++ [10])
    (lit "x " ++ decl_fstring Basic (lit "OLD") ++ lit " y")
  = Ok (lit "x "
          ++ decl_fstring Basic
               (lit "// was: " ++ decl_fstring Basic (lit "OLD") ++ [10])
          ++ lit " y").
Proof.
  apply (group_reference_wraps_the_old_declaration Basic
           (lit "// was: ") [10] (lit "x ") (lit "OLD") (lit " y"));
    try (vm_compute; reflexivity); apply contains_char_elem; reflexivity.
Defined.

(** ** The report *)

(** X18.  In a run that succeeds the last four events are the four
    lines of the report: the success line and, for each template, two
    spaces, its label, [ template: ], a number in decimal and [ bytes].
    The number is the length of the text read from the template file: it
    is at most the number of bytes of the file, and it is that number when
    every byte of the file is ASCII and none is a carriage return. *)
Theorem report_gives_the_length_of_the_text_read (w w' : World) :
  regenerate_templates w = (Ok (), w') →
  ∃ basic_data timelock_data weighted_data basic_lib timelock_lib weighted_lib es,
    (files w !! basic_path = Some basic_data
     ∧ decode_text basic_data = Some basic_lib)
    ∧ (files w !! timelock_path = Some timelock_data
       ∧ decode_text timelock_data = Some timelock_lib)
    ∧ (files w !! weighted_path = Some weighted_data
       ∧ decode_text weighted_data = Some weighted_lib)
    ∧ Forall no_print es
    ∧ trace w'
      = trace w ++ es
          ++ [EvPrint (9989 :: lit " CLI templates regenerated successfully!");
              EvPrint (lit "  Basic template: "
                         ++ py_str_of_nat (length basic_lib) ++ lit " bytes");
              EvPrint (lit "  Timelock template: "
                         ++ py_str_of_nat (length timelock_lib) ++ lit " bytes");
              EvPrint (lit "  Weighted template: "
                         ++ py_str_of_nat (length weighted_lib) ++ lit " bytes")]
    ∧ (length basic_lib ≤ length basic_data
       ∧ length timelock_lib ≤ length timelock_data
       ∧ length weighted_lib ≤ length weighted_data)%nat
    ∧ (ascii_file basic_data → length basic_lib = length basic_data)
    ∧ (ascii_file timelock_data → length timelock_lib = length timelock_data)
    ∧ (ascii_file weighted_data → length weighted_lib = length weighted_data).
Proof.
  intros Hrun.
  destruct (run_cases w) as [(e' & es & H & Hes)|H].
  { rewrite H in Hrun. discriminate Hrun. }
  destruct H as (b & t & wl & c & out & data
                 & Hb & Ht & Hw & Hc & E & _ & _ & _ & H).
  rewrite H in Hrun. injection Hrun as <-.
  assert (∀ path lib, text_of w path = Some lib →
            ∃ d, files w !! path = Some d ∧ decode_text d = Some lib) as Hfile.
  { intros path lib. unfold text_of.
    destruct (files w !! path) as [d|]; [|done]. cbn [mbind option_bind].
    intros Hd. by exists d. }
  destruct (Hfile _ _ Hb) as (db & Fb & Db).
  destruct (Hfile _ _ Ht) as (dt & Ft & Dt).
  destruct (Hfile _ _ Hw) as (dw & Fw & Dw).
  destruct (decode_text_length _ _ Db) as [Lb Ab].
  destruct (decode_text_length _ _ Dt) as [Lt At].
  destruct (decode_text_length _ _ Dw) as [Lw Aw].
  exists db, dt, dw, b, t, wl,
    (the_reads ++ [EvOpenWrite cli_path; EvWrite cli_path data]).
  split_and!; [done..| | |done|done|done|done|done|done].
  - apply Forall_app. split; by repeat constructor.
  - unfold final_world. cbn [trace]. by rewrite <-!app_assoc.
Qed.

Lemma report_gives_the_length_of_the_text_read_witness :
  let w' := snd (regenerate_templates scenario_world) in
  ∃ basic_data timelock_data weighted_data basic_lib timelock_lib weighted_lib es,
    (files scenario_world !! basic_path = Some basic_data
     ∧ decode_text basic_data = Some basic_lib)
    ∧ (files scenario_world !! timelock_path = Some timelock_data
       ∧ decode_text timelock_data = Some timelock_lib)
    ∧ (files scenario_world !! weighted_path = Some weighted_data
       ∧ decode_text weighted_data = Some weighted_lib)
    ∧ Forall no_print es
    ∧ trace w'
      = trace scenario_world ++ es
          ++ [EvPrint (9989 :: lit " CLI templates regenerated successfully!");
              EvPrint (lit "  Basic template: "
                         ++ py_str_of_nat (length basic_lib) ++ lit " bytes");
              EvPrint (lit "  Timelock template: "
                         ++ py_str_of_nat (length timelock_lib) ++ lit " bytes");
              EvPrint (lit "  Weighted template: "
                         ++ py_str_of_nat (length weighted_lib) ++ lit " bytes")]
    ∧ (length basic_lib ≤ length basic_data
       ∧ length timelock_lib ≤ length timelock_data
       ∧ length weighted_lib ≤ length weighted_data)%nat
    ∧ (ascii_file basic_data → length basic_lib = length basic_data)
    ∧ (ascii_file timelock_data → length timelock_lib = length timelock_data)
    ∧ (ascii_file weighted_data → length weighted_lib = length weighted_data).
Proof.
  apply (report_gives_the_length_of_the_text_read scenario_world).
  vm_compute. reflexivity.
Defined.
